(** * The pizza-analytics dashboard engine, embedded and verified

    Source: [src/components/dashboard/PixelAnalyticsDashboard.tsx].

    The development follows the data flow of the component:
    raw feed -> [load] (validation) -> [baseEvents] -> [timeFilteredEvents]
    -> { [minuteData] -> [totals], [peak10Min] ; [filteredEvents] ->
    [downloadCsv] }, with [mulberry32]/[seedFromString] driving the synthetic
    fallback of [baseEvents].

    Conventions of the embedding:
    - a JavaScript [number] is an IEEE-754 binary64 value, modelled by the
      standard library's [spec_float] at precision 53 and exponent bound 1024
      (round to nearest, ties to even);
    - counters that only ever hold small non-negative integers (bucket
      counts, loop indices, array lengths) are integers of [Z] or [nat];
    - a JavaScript string is a sequence of code units; the code units below
      256 are modelled, as [string];
    - a value delivered by [JSON.parse] is a tree of type [value]; a
      conversion that raises [TypeError] returns [None]. *)

From Stdlib Require Import ZArith List String Ascii Bool Lia.
From Stdlib Require Import Floats.SpecFloat DecimalString.
From stdpp Require Import base list.
Import ListNotations.

Local Open Scope Z_scope.

(** ** JavaScript numbers *)

Module Num.

Definition number : Type := spec_float.

Definition prec : Z := 53.
Definition emax : Z := 1024.

Definition NaN : number := S754_nan.
Definition Infinity : number := S754_infinity false.
Definition zero : number := S754_zero false.

Definition add : number -> number -> number := SFadd prec emax.
Definition sub : number -> number -> number := SFsub prec emax.
Definition mul : number -> number -> number := SFmul prec emax.
Definition div : number -> number -> number := SFdiv prec emax.

(** The number denoted by an integer (exact below 2^53, rounded above). *)
Definition of_Z (z : Z) : number := binary_normalize prec emax z 0 false.

(** The number denoted by the decimal literal [m * 10^e10], correctly
    rounded; [neg] is the sign of the literal. *)
Definition of_decimal (neg : bool) (m : Z) (e10 : Z) : number :=
  match m with
  | Zpos p =>
      if 0 <=? e10
      then binary_round prec emax neg (Z.to_pos (Zpos p * 10 ^ e10)) 0
      else div (S754_finite neg p 0)
               (S754_finite false (Z.to_pos (10 ^ (- e10))) 0)
  | _ => S754_zero neg
  end.

Definition isNaN (x : number) : bool :=
  match x with S754_nan => true | _ => false end.

(** [Number.isFinite] *)
Definition isFinite (x : number) : bool :=
  match x with
  | S754_zero _ | S754_finite _ _ _ => true
  | _ => false
  end.

(** The relational operators [<], [<=], [>], [>=]: false whenever an
    operand is NaN. *)
Definition lt (a b : number) : bool :=
  match SFcompare a b with Some Lt => true | _ => false end.
Definition le (a b : number) : bool :=
  match SFcompare a b with Some (Lt | Eq) => true | _ => false end.
Definition gt (a b : number) : bool :=
  match SFcompare a b with Some Gt => true | _ => false end.
Definition ge (a b : number) : bool :=
  match SFcompare a b with Some (Gt | Eq) => true | _ => false end.

(** Numeric equality [==] on numbers: [+0] equals [-0], NaN equals
    nothing. *)
Definition num_eq (a b : number) : bool :=
  match SFcompare a b with Some Eq => true | _ => false end.

(** [Math.floor] *)
Definition Math_floor (x : number) : number :=
  match x with
  | S754_finite s m e =>
      if 0 <=? e then x
      else binary_normalize prec emax
             (Z.shiftr (cond_Zopp s (Zpos m)) (- e)) 0 s
  | _ => x
  end.

(** [Math.round]: the nearest integer, halves towards +Infinity. *)
Definition Math_round (x : number) : number :=
  match x with
  | S754_finite s m e =>
      if 0 <=? e then x
      else binary_normalize prec emax
             (Z.shiftr (2 * cond_Zopp s (Zpos m) + 2 ^ (- e)) (1 - e)) 0 s
  | _ => x
  end.

(** One step of the loop of [Math.max]: NaN is absorbing, [+0] beats
    [-0], otherwise the strictly larger argument wins. *)
Definition max_step (highest n : number) : number :=
  match highest, n with
  | S754_nan, _ | _, S754_nan => S754_nan
  | S754_zero true, S754_zero false => n
  | _, _ => if gt n highest then n else highest
  end.

Definition min_step (lowest n : number) : number :=
  match lowest, n with
  | S754_nan, _ | _, S754_nan => S754_nan
  | S754_zero false, S754_zero true => n
  | _, _ => if lt n lowest then n else lowest
  end.

(** [Math.max(...args)] and [Math.min(...args)] *)
Definition Math_max (args : list number) : number :=
  fold_left max_step args (S754_infinity true).
Definition Math_min (args : list number) : number :=
  fold_left min_step args (S754_infinity false).

(** The remainder operator [%]: exact, with the sign of the dividend. *)
Definition rem (n d : number) : number :=
  match n, d with
  | S754_nan, _ | _, S754_nan => S754_nan
  | S754_infinity _, _ => S754_nan
  | _, S754_zero _ => S754_nan
  | _, S754_infinity _ => n
  | S754_zero _, _ => n
  | S754_finite sn mn en, S754_finite _ md ed =>
      let e := Z.min en ed in
      let a := Zpos mn * 2 ^ (en - e) in
      let b := Zpos md * 2 ^ (ed - e) in
      binary_normalize prec emax (cond_Zopp sn (a mod b)) e sn
  end.

(** The integer a number denotes, when it denotes one ([-0] denotes 0). *)
Definition to_integer (x : number) : option Z :=
  match x with
  | S754_zero _ => Some 0
  | S754_finite s m e =>
      if 0 <=? e then Some (cond_Zopp s (Zpos m * 2 ^ e))
      else if Zpos m mod 2 ^ (- e) =? 0
           then Some (cond_Zopp s (Zpos m / 2 ^ (- e)))
           else None
  | _ => None
  end.

(** The position that the property key [x] designates in an array of
    length [len]: an integer within bounds.  Every other key names no element
    of the array. *)
Definition to_index (len : nat) (x : number) : option nat :=
  match to_integer x with
  | Some i =>
      if (0 <=? i) && (i <? Z.of_nat len) then Some (Z.to_nat i) else None
  | None => None
  end.

(** [arr[x]] for an array [arr] and a number [x]: the element when [x]
    designates one, [undefined] ([None]) otherwise. *)
Definition array_get {A : Type} (arr : list A) (x : number) : option A :=
  match to_index (length arr) x with
  | Some i => arr !! i
  | None => None
  end.

End Num.

(** ** JavaScript strings *)

Module Str.

Local Open Scope string_scope.
Local Open Scope Z_scope.

Definition chars (s : string) : list ascii := list_ascii_of_string s.
Definition of_chars (cs : list ascii) : string := string_of_list_ascii cs.

Definition str_length (s : string) : Z := Z.of_nat (String.length s).

Fixpoint repeat_char (c : ascii) (n : nat) : string :=
  match n with
  | O => EmptyString
  | S n' => String c (repeat_char c n')
  end.

(** [s.padStart(n, z)] for the pad string [z] made of the digit 0. *)
Definition padStart0 (n : nat) (s : string) : string :=
  repeat_char "0" (n - String.length s) ++ s.

(** [s.split(sep)] for a one-character separator. *)
Fixpoint split (sep : ascii) (s : string) : list string :=
  match s with
  | EmptyString => [EmptyString]
  | String c r =>
      if Ascii.eqb c sep then EmptyString :: split sep r
      else match split sep r with
           | h :: t => String c h :: t
           | [] => [String c EmptyString]
           end
  end.

(** [parts.join(sep)] *)
Fixpoint join (sep : string) (parts : list string) : string :=
  match parts with
  | [] => EmptyString
  | [p] => p
  | p :: rest => p ++ sep ++ join sep rest
  end.

(** The double-quote character (code unit 34). *)
Definition dquote : ascii := "034"%char.

(** [s.replaceAll(q, q + q)] for the double-quote character [q]: every
    occurrence is doubled. *)
Fixpoint double_quotes (s : string) : string :=
  match s with
  | EmptyString => EmptyString
  | String c r =>
      if Ascii.eqb c dquote then String dquote (String dquote (double_quotes r))
      else String c (double_quotes r)
  end.

(** The decimal digits of a non-negative integer. *)
Definition digits_of (z : Z) : string :=
  NilZero.string_of_uint (N.to_uint (Z.to_N z)).

(** [String(i)] for an integer-valued number [i] below 10^21 in
    magnitude. *)
Definition of_int (z : Z) : string :=
  if z <? 0 then "-" ++ digits_of (- z) else digits_of z.

End Str.

(** ** Conversions between numbers and strings *)

Module NumStr.

Import Num.
Local Open Scope string_scope.
Local Open Scope Z_scope.

(** *** [Number::toString]: the shortest decimal that reads back *)

(** [x < 10^n] for the positive rational [x = num / den]. *)
Definition lt_pow10 (num den n : Z) : bool :=
  if 0 <=? n then num <? den * 10 ^ n else num * 10 ^ (- n) <? den.

(** The [n] with [10^(n-1) <= num/den < 10^n]. *)
Definition dec_exponent (num den : Z) : Z :=
  let est := ((Z.log2 num - Z.log2 den) * 30103) / 100000 in
  let cands := map (fun i => est - 1 + Z.of_nat i) (seq 0 6) in
  match find (lt_pow10 num den) cands with
  | Some n => n
  | None => est + 5
  end.

Definition same_number (a b : number) : bool :=
  match a, b with
  | S754_zero s, S754_zero t => Bool.eqb s t
  | S754_infinity s, S754_infinity t => Bool.eqb s t
  | S754_nan, S754_nan => true
  | S754_finite s m e, S754_finite t n f =>
      Bool.eqb s t && Pos.eqb m n && Z.eqb e f
  | _, _ => false
  end.

(** The candidates with [k] digits for the positive number
    [x = num / den] of decimal exponent [n0]: the two [k]-digit decimals
    around [x]; the result is [(s, n)] for the decimal [s * 10^(n-k)]. *)
Definition try_digits (x : number) (num den n0 k : Z) : option (Z * Z) :=
  let p := n0 - k in
  let '(a, b) := if 0 <=? p then (num, den * 10 ^ p)
                 else (num * 10 ^ (- p), den) in
  let lo := a / b in
  let r := a mod b in
  let hi := lo + 1 in
  let up := if hi =? 10 ^ k then (10 ^ (k - 1), n0 + 1) else (hi, n0) in
  match same_number (of_decimal false lo p) x,
        same_number (of_decimal false hi p) x with
  | true, true =>
      match 2 * r ?= b with
      | Lt => Some (lo, n0)
      | Gt => Some up
      | Eq => if Z.even lo then Some (lo, n0) else Some up
      end
  | true, false => Some (lo, n0)
  | false, true => Some up
  | false, false => None
  end.

Fixpoint shortest (x : number) (num den n0 : Z) (k : Z) (fuel : nat)
  : Z * Z * Z :=
  match fuel with
  | O => (num * 10 ^ (17 - n0) / den, 17, n0)
  | S fuel' =>
      match try_digits x num den n0 k with
      | Some (s, n) => (s, k, n)
      | None => shortest x num den n0 (k + 1) fuel'
      end
  end.

(** The layout rules of [Number::toString] for the decimal
    [s * 10^(n-k)] with [k] digits. *)
Definition layout (s k n : Z) : string :=
  let ds := Str.digits_of s in
  if (k <=? n) && (n <=? 21)
  then ds ++ Str.repeat_char "0" (Z.to_nat (n - k))
  else if (0 <? n) && (n <=? 21)
  then substring 0 (Z.to_nat n) ds ++ "."
       ++ substring (Z.to_nat n) (Z.to_nat (k - n)) ds
  else if (-6 <? n) && (n <=? 0)
  then "0." ++ Str.repeat_char "0" (Z.to_nat (- n)) ++ ds
  else
    let e := n - 1 in
    let es := (if 0 <=? e then "+" else "-") ++ Str.digits_of (Z.abs e) in
    if k =? 1 then ds ++ "e" ++ es
    else substring 0 1 ds ++ "." ++ substring 1 (Z.to_nat (k - 1)) ds
         ++ "e" ++ es.

Definition positive_toString (m : positive) (e : Z) : string :=
  let '(num, den) := if 0 <=? e then (Zpos m * 2 ^ e, 1)
                     else (Zpos m, 2 ^ (- e)) in
  let n0 := dec_exponent num den in
  let '(s, k, n) := shortest (S754_finite false m e) num den n0 1 17 in
  layout s k n.

(** [String(x)] for a number [x]. *)
Definition Number_toString (x : number) : string :=
  match x with
  | S754_nan => "NaN"
  | S754_zero _ => "0"
  | S754_infinity false => "Infinity"
  | S754_infinity true => "-Infinity"
  | S754_finite false m e => positive_toString m e
  | S754_finite true m e => "-" ++ positive_toString m e
  end.

(** *** [StringToNumber]: the grammar of [StringNumericLiteral] *)

Definition is_ws (c : ascii) : bool :=
  match nat_of_ascii c with
  | 9 | 10 | 11 | 12 | 13 | 32 | 160 => true
  | _ => false
  end%nat.

Fixpoint ltrim (cs : list ascii) : list ascii :=
  match cs with
  | c :: r => if is_ws c then ltrim r else cs
  | [] => []
  end.

Definition trim (cs : list ascii) : list ascii :=
  rev (ltrim (rev (ltrim cs))).

(** The value of a digit in a radix up to 16. *)
Definition digit_val (radix : Z) (c : ascii) : option Z :=
  let n := Z.of_nat (nat_of_ascii c) in
  let v := if (48 <=? n) && (n <=? 57) then n - 48
           else if (97 <=? n) && (n <=? 102) then n - 87
           else if (65 <=? n) && (n <=? 70) then n - 55
           else radix in
  if v <? radix then Some v else None.

(** Reads the longest prefix of digits: the value accumulated on [acc],
    the number of digits read, and the rest. *)
Fixpoint span_digits (radix : Z) (cs : list ascii) (acc cnt : Z)
  : Z * Z * list ascii :=
  match cs with
  | c :: r =>
      match digit_val radix c with
      | Some d => span_digits radix r (radix * acc + d) (cnt + 1)
      | None => (acc, cnt, cs)
      end
  | [] => (acc, cnt, [])
  end.

Definition parse_radix (radix : Z) (cs : list ascii) : number :=
  match span_digits radix cs 0 0 with
  | (v, cnt, []) => if 0 <? cnt then of_Z v else NaN
  | _ => NaN
  end.

Definition parse_exponent (cs : list ascii) : option Z :=
  let '(neg, r) := match cs with
                   | "+"%char :: r => (false, r)
                   | "-"%char :: r => (true, r)
                   | _ => (false, cs)
                   end in
  match span_digits 10 r 0 0 with
  | (v, cnt, []) => if 0 <? cnt then Some (if neg then - v else v) else None
  | _ => None
  end.

Definition parse_unsigned (neg : bool) (cs : list ascii) : number :=
  if String.eqb (Str.of_chars cs) "Infinity" then S754_infinity neg
  else
    let '(i, ci, r1) := span_digits 10 cs 0 0 in
    let '(m, cf, r2) := match r1 with
                        | "."%char :: r => span_digits 10 r i 0
                        | _ => (i, 0, r1)
                        end in
    if ci + cf =? 0 then NaN
    else match r2 with
         | [] => of_decimal neg m (- cf)
         | c :: r3 =>
             if Ascii.eqb c "e" || Ascii.eqb c "E"
             then match parse_exponent r3 with
                  | Some ex => of_decimal neg m (ex - cf)
                  | None => NaN
                  end
             else NaN
         end.

(** [Number(s)] for a string [s]. *)
Definition StringToNumber (s : string) : number :=
  match trim (Str.chars s) with
  | [] => zero
  | "0"%char :: x :: r =>
      if Ascii.eqb x "x" || Ascii.eqb x "X" then parse_radix 16 r
      else if Ascii.eqb x "o" || Ascii.eqb x "O" then parse_radix 8 r
      else if Ascii.eqb x "b" || Ascii.eqb x "B" then parse_radix 2 r
      else parse_unsigned false ("0"%char :: x :: r)
  | "+"%char :: r => parse_unsigned false r
  | "-"%char :: r => parse_unsigned true r
  | cs => parse_unsigned false cs
  end.

End NumStr.

(** ** Values delivered by [JSON.parse], and their conversions *)

Module JS.

Import Num.
Local Open Scope string_scope.

#[local] Set Warnings "-register-all".

Inductive value : Type :=
| VUndefined
| VNull
| VBool (b : bool)
| VNumber (n : number)
| VString (s : string)
| VArray (items : list value)
| VObject (props : list (string * value)).

(** The own property [k] of an object, given as its list of properties. *)
Fixpoint own (k : string) (props : list (string * value)) : option value :=
  match props with
  | [] => None
  | (k', v) :: rest => if String.eqb k k' then Some v else own k rest
  end.

(** [e?.k], for a key [k] that no prototype defines (as is the case of
    every key the component reads): the own property of an object,
    [undefined] for everything else. *)
Definition get (e : value) (k : string) : value :=
  match e with
  | VObject props =>
      match own k props with
      | Some v => v
      | None => VUndefined
      end
  | _ => VUndefined
  end.

(** [ToBoolean] *)
Definition truthy (v : value) : bool :=
  match v with
  | VUndefined | VNull => false
  | VBool b => b
  | VNumber (S754_zero _) | VNumber S754_nan => false
  | VNumber _ => true
  | VString EmptyString => false
  | VString _ => true
  | VArray _ | VObject _ => true
  end.

(** [a || b] *)
Definition or_else (a b : value) : value := if truthy a then a else b.

(** [a ?? b] *)
Definition nullish (a b : value) : value :=
  match a with
  | VUndefined | VNull => b
  | _ => a
  end.

(** [String(v)].  An array is joined with commas, its [null] elements
    rendered empty; an object without an own [toString] property renders
    through [Object.prototype.toString]; with one (which is never
    callable in parsed JSON) the conversion raises [TypeError]. *)
Fixpoint ToString (v : value) : option string :=
  match v with
  | VUndefined => Some "undefined"
  | VNull => Some "null"
  | VBool true => Some "true"
  | VBool false => Some "false"
  | VNumber n => Some (NumStr.Number_toString n)
  | VString s => Some s
  | VArray items =>
      (fix join_items (l : list value) : option string :=
         match l with
         | [] => Some EmptyString
         | x :: rest =>
             match match x with
                   | VUndefined | VNull => Some EmptyString
                   | _ => ToString x
                   end with
             | None => None
             | Some sx =>
                 match rest with
                 | [] => Some sx
                 | _ :: _ =>
                     match join_items rest with
                     | None => None
                     | Some sr => Some (sx ++ "," ++ sr)
                     end
                 end
             end
         end) items
  | VObject props =>
      match own "toString" props with
      | Some _ => None
      | None => Some "[object Object]"
      end
  end.

(** [Number(v)].  Arrays and objects convert through their string. *)
Definition ToNumber (v : value) : option number :=
  match v with
  | VUndefined => Some NaN
  | VNull => Some zero
  | VBool true => Some (of_Z 1)
  | VBool false => Some zero
  | VNumber n => Some n
  | VString s => Some (NumStr.StringToNumber s)
  | VArray _ | VObject _ =>
      match ToString v with
      | Some s => Some (NumStr.StringToNumber s)
      | None => None
      end
  end.

End JS.

(** ** 32-bit integer operators *)

Module Int32.

Import Num.

Definition ToUint32z (z : Z) : Z := z mod 2 ^ 32.
Definition ToInt32z (z : Z) : Z :=
  let m := z mod 2 ^ 32 in if m <? 2 ^ 31 then m else m - 2 ^ 32.

(** The integer part of a number, truncated towards zero; 0 for NaN and
    the infinities. *)
Definition truncate (x : number) : Z :=
  match x with
  | S754_finite s m e =>
      cond_Zopp s (if 0 <=? e then Zpos m * 2 ^ e else Zpos m / 2 ^ (- e))
  | _ => 0
  end.

Definition ToInt32 (x : number) : Z := ToInt32z (truncate x).
Definition ToUint32 (x : number) : Z := ToUint32z (truncate x).

(** [a ^ b], [a | b], [a >>> n] and [Math.imul(a, b)] on operands that are
    already integers. *)
Definition xor (a b : Z) : Z := Z.lxor (ToInt32z a) (ToInt32z b).
Definition or (a b : Z) : Z := Z.lor (ToInt32z a) (ToInt32z b).
Definition ushr (a n : Z) : Z := Z.shiftr (ToUint32z a) n.
Definition imul (a b : Z) : Z := ToInt32z (ToUint32z a * ToUint32z b).

End Int32.

(** ** The component: types *)

Import Num.
Local Open Scope string_scope.
Local Open Scope Z_scope.

(** [type PizzaSize = "Small" | "Medium" | "Large" | "XL"] *)
Inductive PizzaSize : Type := Small | Medium | Large | XL.

Definition size_name (s : PizzaSize) : string :=
  match s with
  | Small => "Small"
  | Medium => "Medium"
  | Large => "Large"
  | XL => "XL"
  end.

Definition size_eqb (a b : PizzaSize) : bool :=
  match a, b with
  | Small, Small | Medium, Medium | Large, Large | XL, XL => true
  | _, _ => false
  end.

(** [type MinutePoint]; the four counters are the fields named after the
    sizes. *)
Record MinutePoint : Type := {
  minute : string;
  total : Z;
  count_Small : Z;
  count_Medium : Z;
  count_Large : Z;
  count_XL : Z
}.

(** [p[size]] *)
Definition count_of (size : PizzaSize) (p : MinutePoint) : Z :=
  match size with
  | Small => count_Small p
  | Medium => count_Medium p
  | Large => count_Large p
  | XL => count_XL p
  end.

(** [type DetectionEvent]; [e_timestamp] is the optional field. *)
Record DetectionEvent : Type := {
  e_id : string;
  e_time : string;
  e_size : PizzaSize;
  e_confidence : number;
  e_source : string;
  e_timestamp : option string
}.

(** [type TimeRangeKey = "all" | "5m" | "10m" | "30m" | "60m"] *)
Inductive TimeRangeKey : Type := range_all | range_5m | range_10m | range_30m | range_60m.

(** ** The component: helpers *)

(** The state of the generator returned by [mulberry32(seed)] is its
    captured variable [t], initially [seed >>> 0]. *)
Definition mulberry32 (seed : number) : number := of_Z (Int32.ToUint32 seed).

(** One call of the generator: the number drawn and the new [t]. *)
Definition mulberry32_call (t : number) : number * number :=
  let t' := add t (of_Z 1831565813) in
  let x := Int32.truncate t' in
  let x := Int32.imul (Int32.xor x (Int32.ushr x 15)) (Int32.or x 1) in
  let x := Int32.xor x (x + Int32.imul (Int32.xor x (Int32.ushr x 7)) (Int32.or x 61)) in
  (div (of_Z (Int32.ToUint32z (Int32.xor x (Int32.ushr x 14)))) (of_Z 4294967296), t').

Definition seedFromString (s : string) : number :=
  let h := fold_left
             (fun h c => Int32.imul (Int32.xor h (Z.of_nat (nat_of_ascii c))) 16777619)
             (Str.chars s) 2166136261 in
  of_Z (Int32.ToUint32z h).

Definition clamp (n min max : number) : number :=
  Math_min [max; Math_max [min; n]].

(** [toMinLabel(idx)] for an array index [idx]. *)
Definition toMinLabel (idx : nat) : string :=
  "00:" ++ Str.padStart0 2 (Str.of_int (Z.of_nat idx)).

Definition toHms (seconds : number) : string :=
  let s := Math_max [zero; Math_floor seconds] in
  let h := Math_floor (div s (of_Z 3600)) in
  let m := Math_floor (div (rem s (of_Z 3600)) (of_Z 60)) in
  let sec := rem s (of_Z 60) in
  Str.padStart0 2 (NumStr.Number_toString h) ++ ":"
  ++ Str.padStart0 2 (NumStr.Number_toString m) ++ ":"
  ++ Str.padStart0 2 (NumStr.Number_toString sec).

Definition hmsToSeconds (hms : string) : number :=
  match map NumStr.StringToNumber (Str.split ":" hms) with
  | [h; m; s] =>
      if negb (isFinite h) || negb (isFinite m) || negb (isFinite s) then zero
      else Math_max [zero; Math_floor (add (add (mul h (of_Z 3600)) (mul m (of_Z 60))) s)]
  | _ => zero
  end.

(** ** The component: ingestion ([load]) *)

Definition size_of_string (s : string) : option PizzaSize :=
  if String.eqb s "Small" then Some Small
  else if String.eqb s "Medium" then Some Medium
  else if String.eqb s "Large" then Some Large
  else if String.eqb s "XL" then Some XL
  else None.

(** The identifier [EVT-####] of the record at position [idx]. *)
Definition default_id (idx : nat) : string :=
  "EVT-" ++ Str.padStart0 4 (Str.of_int (Z.of_nat idx + 1)).

(** The callback of [rawEvents.map] in [load]: [None] when a conversion
    throws, [Some None] when the callback returns [null], [Some (Some ev)]
    when it returns the event [ev]. *)
Definition validate (e : JS.value) (idx : nat) : option (option DetectionEvent) :=
  match JS.ToString (JS.or_else (JS.get e "size") (JS.VString "")) with
  | None => None
  | Some size =>
  match size_of_string size with
  | None => Some None
  | Some size =>
  match JS.ToString (JS.or_else (JS.get e "time") (JS.VString "00:00:00")) with
  | None => None
  | Some time =>
  match JS.ToNumber (JS.get e "confidence") with
  | None => None
  | Some confidence =>
  match JS.ToString (JS.or_else (JS.get e "source") (JS.VString "Cutting Table 1")) with
  | None => None
  | Some source =>
  match JS.ToString (JS.or_else (JS.get e "id") (JS.VString (default_id idx))) with
  | None => None
  | Some id =>
  match
    match JS.nullish (JS.nullish (JS.get e "timestamp") (JS.get e "datetime"))
                     (JS.get e "dateTime") with
    | JS.VUndefined | JS.VNull => Some None
    | ts => match JS.ToString ts with
            | Some s => Some (Some s)
            | None => None
            end
    end
  with
  | None => None
  | Some timestamp =>
      Some (Some {| e_id := id;
                    e_time := time;
                    e_size := size;
                    e_confidence := if isFinite confidence then confidence
                                    else of_decimal false 9 (-1);
                    e_source := source;
                    e_timestamp := match timestamp with
                                   | Some (String c r) => Some (String c r)
                                   | _ => None
                                   end |})
  end end end end end end end.

(** [rawEvents.map(callback).filter(Boolean)]: [None] when some call of the
    callback throws. *)
Fixpoint validate_from (idx : nat) (rawEvents : list JS.value)
  : option (list DetectionEvent) :=
  match rawEvents with
  | [] => Some []
  | e :: rest =>
      match validate e idx with
      | None => None
      | Some r =>
          match validate_from (S idx) rest with
          | None => None
          | Some evs => Some (match r with Some ev => ev :: evs | None => evs end)
          end
      end
  end.

(** [(json && Array.isArray(json.events)) ? json.events : []] *)
Definition rawEvents_of (json : JS.value) : list JS.value :=
  if JS.truthy json
  then match JS.get json "events" with
       | JS.VArray items => items
       | _ => []
       end
  else [].

(** The outcome of the request of [load]. *)
Variant response : Type :=
| Rejected                      (* [fetch] or [res.json()] throws *)
| NotOk                         (* [res.ok] is false *)
| Body (json : JS.value).       (* the parsed body *)

(** The value that [load] hands to [setEventsFromFile]: [None] is
    [null].  Whether the call is reached is [load_effect] below. *)
Definition load (res : response) : option (list DetectionEvent) :=
  match res with
  | Rejected | NotOk => None
  | Body json =>
      match validate_from 0 (rawEvents_of json) with
      | Some (ev :: evs) => Some (ev :: evs)
      | _ => None
      end
  end.

(** What a run of [load] does to the state [eventsFromFile]: each of its
    three calls of [setEventsFromFile] stands under [if (!cancelled)], so
    the run stores the value above unless the effect has been cleaned up
    before the store is reached.  [None]: nothing is stored; [Some v]:
    [setEventsFromFile(v)]. *)
Definition load_effect (cancelled : bool) (res : response)
  : option (option (list DetectionEvent)) :=
  if cancelled then None else Some (load res).

(** ** The component: the synthetic fallback and [baseEvents] *)

Definition sizes : list PizzaSize := [Small; Medium; Large; XL].
Definition weights : list number :=
  [of_decimal false 22 (-2); of_decimal false 38 (-2);
   of_decimal false 31 (-2); of_decimal false 9 (-2)].
Definition totalEvents : nat := 220.

(** The loop over [k] that picks the size for the draw [r]; [acc] is the
    accumulated weight and [ks] the indices still to visit. *)
Fixpoint pick_size (r acc : number) (ks : list nat) : PizzaSize :=
  match ks with
  | [] => Medium
  | k :: rest =>
      let acc := add acc (default zero (weights !! k)) in
      if le r acc then default Medium (sizes !! k)
      else pick_size r acc rest
  end.

(** One iteration of the loop over [i]: the state is the generator's [t]
    and the array [out]. *)
Definition synth_step (st : number * list DetectionEvent) (i : nat)
  : number * list DetectionEvent :=
  let '(rng, out) := st in
  let t := Math_floor (mul (div (of_Z (Z.of_nat i)) (of_Z (Z.of_nat totalEvents)))
                           (of_Z 3600)) in
  let '(r, rng) := mulberry32_call rng in
  let pick := pick_size r zero (seq 0 (length sizes)) in
  let '(r', rng) := mulberry32_call rng in
  let confidence := clamp (add (of_decimal false 72 (-2))
                               (mul r' (of_decimal false 27 (-2))))
                          zero (of_Z 1) in
  (rng, (out ++ [{| e_id := default_id i;
                   e_time := toHms t;
                   e_size := pick;
                   e_confidence := div (Math_round (mul confidence (of_Z 1000)))
                                       (of_Z 1000);
                   e_source := "Cutting Table 1";
                   e_timestamp := None |}])%list).

(** The events generated from the seed string. *)
Definition syntheticEvents (seedString : string) : list DetectionEvent :=
  snd (fold_left synth_step (seq 0 totalEvents)
         (mulberry32 (seedFromString seedString), [])).

Definition seed_string (videoName : string) : string :=
  (match videoName with EmptyString => "demo" | _ => videoName end) ++ ":events".

Definition baseEvents (completed : bool)
    (eventsFromFile : option (list DetectionEvent)) (videoName : string)
  : list DetectionEvent :=
  if negb completed then []
  else match eventsFromFile with
       | Some (ev :: evs) => ev :: evs
       | _ => syntheticEvents (seed_string videoName)
       end.

(** ** The component: time-range filtering *)

Section TimeRange.

(** [Date.parse]: the time value of a date string in milliseconds, NaN when
    the string is not recognised.  The formats recognised beyond the ISO
    format are left to the host, so the function is a parameter. *)
Variable Date_parse : string -> number.

Definition parseDateTimeMs (v : option string) : option number :=
  match v with
  | None => None
  | Some s =>
      let t := Date_parse s in
      if negb (isFinite t) then None else Some t
  end.

(** [!!v] for an optional string. *)
Definition supplied (v : option string) : bool :=
  match v with
  | Some (String _ _) => true
  | _ => false
  end.

Definition minutes_of (timeRange : TimeRangeKey) : Z :=
  match timeRange with
  | range_5m => 5
  | range_10m => 10
  | range_30m => 30
  | _ => 60
  end.

(** The predicate of the filter of the absolute mode. *)
Definition in_datetime_range (fromMs toMs : option number) (e : DetectionEvent)
  : bool :=
  match parseDateTimeMs (e_timestamp e) with
  | None => false
  | Some ms =>
      if match fromMs with Some f => lt ms f | None => false end then false
      else if match toMs with Some t => gt ms t | None => false end then false
      else true
  end.

Definition timeFilteredEvents (completed : bool)
    (dateTimeFrom dateTimeTo : option string) (timeRange : TimeRangeKey)
    (baseEvents : list DetectionEvent) : list DetectionEvent :=
  if negb completed then []
  else if supplied dateTimeFrom || supplied dateTimeTo then
    let fromMs := parseDateTimeMs dateTimeFrom in
    let toMs := parseDateTimeMs dateTimeTo in
    List.filter (in_datetime_range fromMs toMs) baseEvents
  else
    match timeRange with
    | range_all => baseEvents
    | _ =>
        let secs := of_Z (minutes_of timeRange * 60) in
        match baseEvents with
        | [] => []
        | _ :: _ =>
            let times := map (fun e => hmsToSeconds (e_time e)) baseEvents in
            let maxSec := Math_max (zero :: times) in
            let minSec := Math_max [zero; sub maxSec secs] in
            List.filter
              (fun e => let s := hmsToSeconds (e_time e) in
                        ge s minSec && le s maxSec)
              baseEvents
        end
    end.

End TimeRange.

(** ** The component: aggregation *)

Definition empty_point (i : nat) : MinutePoint :=
  {| minute := toMinLabel i; total := 0;
     count_Small := 0; count_Medium := 0; count_Large := 0; count_XL := 0 |}.

(** [b.total += 1; b[size] = (b[size] ?? 0) + 1] *)
Definition bump (size : PizzaSize) (b : MinutePoint) : MinutePoint :=
  {| minute := minute b;
     total := total b + 1;
     count_Small := match size with Small => count_Small b + 1 | _ => count_Small b end;
     count_Medium := match size with Medium => count_Medium b + 1 | _ => count_Medium b end;
     count_Large := match size with Large => count_Large b + 1 | _ => count_Large b end;
     count_XL := match size with XL => count_XL b + 1 | _ => count_XL b end |}.

Definition mins : nat := 60.

(** The key [minIdx] computed for an event. *)
Definition minIdx (e : DetectionEvent) : number :=
  let sec := hmsToSeconds (e_time e) in
  clamp (Math_floor (div sec (of_Z 60))) zero (of_Z (Z.of_nat mins - 1)).

(** One iteration of the loop over the events: the bucket [buckets[minIdx]]
    is updated in place, and an event without a bucket is skipped. *)
Definition minute_step (buckets : list MinutePoint) (e : DetectionEvent)
  : list MinutePoint :=
  match to_index (length buckets) (minIdx e) with
  | Some i => alter (bump (e_size e)) i buckets
  | None => buckets
  end.

Definition minuteData (events : list DetectionEvent) : list MinutePoint :=
  fold_left minute_step events (map empty_point (seq 0 mins)).

Record Totals : Type := {
  t_total : Z; t_Small : Z; t_Medium : Z; t_Large : Z; t_XL : Z
}.

Definition totals (minuteData : list MinutePoint) : Totals :=
  fold_left
    (fun base p =>
       {| t_total := t_total base + total p;
          t_Small := t_Small base + count_Small p;
          t_Medium := t_Medium base + count_Medium p;
          t_Large := t_Large base + count_Large p;
          t_XL := t_XL base + count_XL p |})
    minuteData
    {| t_total := 0; t_Small := 0; t_Medium := 0; t_Large := 0; t_XL := 0 |}.

(** ** The component: the busiest ten minutes *)

(** The inner loop over [j]: [minuteData[i + j]?.total ?? 0] summed. *)
Definition window_sum (minuteData : list MinutePoint) (i : nat) : Z :=
  fold_left
    (fun sum j => sum + match minuteData !! (i + j)%nat with
                        | Some p => total p
                        | None => 0
                        end)
    (seq 0 10) 0.

(** The outer loop over [i], from 0 while [i <= minuteData.length - 10]:
    the state is [(best, bestStart)]. *)
Definition peak_scan (minuteData : list MinutePoint) : Z * nat :=
  fold_left
    (fun st i =>
       let sum := window_sum minuteData i in
       if fst st <? sum then (sum, i) else st)
    (seq 0 (Z.to_nat (Z.of_nat (length minuteData) - 10 + 1)))
    (0, 0%nat).

Record Peak : Type := { count : Z; start : string; end_ : string }.

Definition peak10Min (minuteData : list MinutePoint) : Peak :=
  let '(best, bestStart) := peak_scan minuteData in
  {| count := best;
     start := toMinLabel bestStart;
     end_ := toMinLabel (bestStart + 9) |}.

(** ** The component: the displayed list and its export *)

(** [eventSizeFilter] is [None] for the choice of all sizes. *)
Definition filteredEvents (eventConfidenceMin : number)
    (eventSizeFilter : option PizzaSize) (events : list DetectionEvent)
  : list DetectionEvent :=
  List.filter
    (fun e => match eventSizeFilter with
              | None => true
              | Some s => size_eqb (e_size e) s
              end)
    (List.filter (fun e => ge (e_confidence e) eventConfidenceMin) events).

Definition newline : string := String "010"%char EmptyString.

Definition csv_header : list string :=
  ["time"; "size"; "confidence"; "source"; "id"].

(** The fields of a row, before quoting. *)
Definition csv_fields (r : DetectionEvent) : list string :=
  [e_time r; size_name (e_size r); NumStr.Number_toString (e_confidence r);
   e_source r; e_id r].

Definition csv_quote (x : string) : string :=
  String Str.dquote (Str.double_quotes x ++ String Str.dquote EmptyString).

(** The text that [downloadCsv] puts in the blob. *)
Definition downloadCsv (rows : list DetectionEvent) : string :=
  Str.join newline
    (Str.join "," csv_header
     :: map (fun r => Str.join "," (map csv_quote (csv_fields r))) rows).

(** ** The component: presentation helpers *)

(** [b.startsWith(s)] and [a.endsWith(s)] for the string [s] made of one
    slash. *)
Definition starts_with_slash (b : string) : bool :=
  match b with
  | String "/" _ => true
  | _ => false
  end.

Definition ends_with_slash (a : string) : bool :=
  match rev (Str.chars a) with
  | "/"%char :: _ => true
  | _ => false
  end.

(** [a.slice(0, -1)] *)
Definition slice_0_m1 (a : string) : string :=
  Str.of_chars (List.removelast (Str.chars a)).

Definition joinPath (a b : string) : string :=
  let left := if ends_with_slash a then slice_0_m1 a else a in
  let right := if starts_with_slash b then b else "/" ++ b in
  match left with
  | EmptyString => right
  | _ => left ++ right
  end.

(** [formatMinuteTick(m)]: the last of the colon-separated parts, [m]
    itself should there be none. *)
Definition formatMinuteTick (m : string) : string :=
  List.last (Str.split ":" m) m.

(** [chartMinuteData]; [chartSizeFilter] is [None] for the choice of all
    sizes. *)
Definition chartMinuteData (chartSizeFilter : option PizzaSize)
    (minuteData : list MinutePoint) : list MinutePoint :=
  match chartSizeFilter with
  | None => minuteData
  | Some size =>
      map (fun p => {| minute := minute p;
                       total := count_of size p;
                       count_Small := count_Small p;
                       count_Medium := count_Medium p;
                       count_Large := count_Large p;
                       count_XL := count_XL p |})
          minuteData
  end.

(** [pizzasPerMin], from the length of [minuteData] and [totals.total]. *)
Definition pizzasPerMin (length_minuteData : nat) (totals_total : Z) : number :=
  let mins := Math_max [of_Z 1; of_Z (Z.of_nat length_minuteData)] in
  div (Math_round (mul (div (of_Z totals_total) mins) (of_Z 10))) (of_Z 10).

(** The cell of the confidence column: [Math.round(confidence * 100)]
    followed by a percent sign. *)
Definition render_confidence (r : DetectionEvent) : string :=
  NumStr.Number_toString (Math_round (mul (e_confidence r) (of_Z 100))) ++ "%".

(** ** The page that hosts the component

    Source: [src/app/dashboard/pizza-analytics/page.tsx]. *)

(** [dateTimeFrom || undefined]: the property handed to the component for
    the text of a date field. *)
Definition bound_prop (text : string) : option string :=
  match text with
  | EmptyString => None
  | _ => Some text
  end.

(** [type BranchOption] and [type BranchSelectValue] *)
Record BranchOption : Type := {
  key : string;
  label : string;
  locationId : number
}.

Inductive BranchSelectValue : Type := select_all | select_khayaban.

(** [selectedBranch]: [None] is [null]. *)
Definition selectedBranch (branches : list BranchOption) (selectedBranchKey : string)
  : option BranchOption :=
  match selectedBranchKey with
  | EmptyString => None
  | _ => List.find (fun b => String.eqb (key b) selectedBranchKey) branches
  end.

Definition eventsJsonPath (branchSelect : BranchSelectValue)
    (selectedBranch : option BranchOption) : string :=
  match branchSelect with
  | select_all => "/demo/pizza-events.json"
  | select_khayaban =>
      match selectedBranch with
      | None => "/demo/pizza-events.json"
      | Some b =>
          "/demo/pizza-events-" ++ NumStr.Number_toString (locationId b) ++ ".json"
      end
  end.

(** [demoEventsJsonUrl] of the component, the address that [load]
    requests. *)
Definition demoEventsJsonUrl (basePath eventsJsonPath : string) : string :=
  joinPath basePath eventsJsonPath.

(** ** Reference definitions used to state the properties *)

(** *** Reading delimited text back

    The reader of comma-separated text against which the export is
    checked: fields are separated by commas and records by line feeds (or
    carriage return and line feed); a field that starts with a double quote
    extends to the closing double quote, and inside it a doubled double
    quote stands for one. *)

Inductive csv_state : Type := FieldStart | Unquoted | Quoted | QuoteSeen.

Definition close_field (field : list ascii) (row : list string) : list string :=
  Str.of_chars (rev field) :: row.

Definition close_record (field : list ascii) (row : list string)
    (rows : list (list string)) : list (list string) :=
  rev (close_field field row) :: rows.

(** [field] holds the characters of the current field and [row] the fields
    of the current record, both latest first; [rows] the finished records,
    latest first. *)
Fixpoint csv_scan (st : csv_state) (field : list ascii) (row : list string)
    (rows : list (list string)) (text : string) : list (list string) :=
  match text with
  | EmptyString =>
      match st, row with
      | FieldStart, [] => rev rows
      | _, _ => rev (close_record field row rows)
      end
  | String c rest =>
      match st with
      | Quoted =>
          if Ascii.eqb c Str.dquote then csv_scan QuoteSeen field row rows rest
          else csv_scan Quoted (c :: field) row rows rest
      | _ =>
          if Ascii.eqb c Str.dquote then
            match st with
            | FieldStart => csv_scan Quoted field row rows rest
            | QuoteSeen => csv_scan Quoted (c :: field) row rows rest
            | _ => csv_scan Unquoted (c :: field) row rows rest
            end
          else if Ascii.eqb c "," then
            csv_scan FieldStart [] (close_field field row) rows rest
          else if Ascii.eqb c "010" then
            csv_scan FieldStart [] [] (close_record field row rows) rest
          else
            match c, rest with
            | "013"%char, String "010"%char rest' =>
                csv_scan FieldStart [] [] (close_record field row rows) rest'
            | _, _ => csv_scan Unquoted (c :: field) row rows rest
            end
      end
  end.

Definition csv_parse (text : string) : list (list string) :=
  csv_scan FieldStart [] [] [] text.

(** *** Quantities of the aggregation *)

(** The sum of the totals of a series of buckets. *)
Definition sum_totals (series : list MinutePoint) : Z :=
  fold_right (fun p acc => total p + acc) 0 series.

(** The offset in seconds at which the component places an event. *)
Definition timeOffset (e : DetectionEvent) : number := hmsToSeconds (e_time e).

(** The events whose offset is a number. *)
Definition placed (events : list DetectionEvent) : list DetectionEvent :=
  List.filter (fun e => negb (isNaN (timeOffset e))) events.

(** A time string that is not three colon-separated components each
    reading as a finite number. *)
Definition malformed_time (time : string) : bool :=
  match map NumStr.StringToNumber (Str.split ":" time) with
  | [h; m; s] => negb (isFinite h && isFinite m && isFinite s)
  | _ => true
  end.

(** *** A host's [Date.parse]

    An instance of the parameter [Date_parse], for evaluating the filter on
    examples: the host that recognises exactly the UTC form
    [YYYY-MM-DDTHH:mm:ssZ] of the date-time string format. *)

Definition two_digits (a b : ascii) : option Z :=
  match NumStr.digit_val 10 a, NumStr.digit_val 10 b with
  | Some x, Some y => Some (10 * x + y)
  | _, _ => None
  end.

Definition days_in_month (y m : Z) : Z :=
  if m =? 2 then
    if ((y mod 4 =? 0) && negb (y mod 100 =? 0)) || (y mod 400 =? 0) then 29 else 28
  else if (m =? 4) || (m =? 6) || (m =? 9) || (m =? 11) then 30
  else 31.

(** The number of days from 1970-01-01 to the given date. *)
Definition days_from_civil (y m d : Z) : Z :=
  let y' := if m <=? 2 then y - 1 else y in
  let era := y' / 400 in
  let yoe := y' - era * 400 in
  let doy := (153 * ((m + 9) mod 12) + 2) / 5 + d - 1 in
  era * 146097 + (yoe * 365 + yoe / 4 - yoe / 100 + doy) - 719468.

Definition Date_parse_utc (s : string) : number :=
  match Str.chars s with
  | [y1; y2; y3; y4; "-"; m1; m2; "-"; d1; d2; "T"; h1; h2; ":"; n1; n2; ":"; s1; s2; "Z"]%char =>
      match two_digits y1 y2, two_digits y3 y4, two_digits m1 m2,
            two_digits d1 d2, two_digits h1 h2, two_digits n1 n2,
            two_digits s1 s2 with
      | Some yh, Some yl, Some m, Some d, Some h, Some n, Some sec =>
          let y := 100 * yh + yl in
          if (1 <=? m) && (m <=? 12) && (1 <=? d) && (d <=? days_in_month y m)
             && (h <=? 23) && (n <=? 59) && (sec <=? 59)
          then of_Z (((days_from_civil y m d * 24 + h) * 60 + n) * 60000
                     + sec * 1000)
          else NaN
      | _, _, _, _, _, _, _ => NaN
      end
  | _ => NaN
  end.

(** ** Further definitions used to state and prove the properties *)

(** The shape of a rounded non-negative mantissa: a zero, a finite number
    or an infinity of the given sign, with an exponent that is not below
    the one given. *)
Definition rounded_shape (s : bool) (e : Z) (x : number) : Prop :=
  match x with
  | S754_zero s' => s' = s
  | S754_infinity s' => s' = s
  | S754_finite s' _ e' => s' = s /\ e <= e'
  | S754_nan => False
  end.

(** The mantissa of the integer [p] brought to 53 digits. *)
Definition aligned (p : positive) : positive :=
  match (53 - Z.pos (digits2_pos p))%Z with
  | Z.pos k => Pos.iter xO p k
  | _ => p
  end.

(** The numbers 59 and 60. *)
Definition c59 : number := S754_finite false 8303511812964352 (-47).
Definition c60 : number := S754_finite false 8444249301319680 (-47).

(** A bucket whose total is the sum of its four counters. *)
Definition balanced (p : MinutePoint) : Prop :=
  total p = count_Small p + count_Medium p + count_Large p + count_XL p.

(** The bucket in which the aggregation counts an event, if any. *)
Definition bucket_of (e : DetectionEvent) : option nat := to_index mins (minIdx e).

Definition in_bucket (i : nat) (e : DetectionEvent) : bool :=
  match bucket_of e with
  | Some j => Nat.eqb j i
  | None => false
  end.

(** The number of events of a list that satisfy a test. *)
Definition count_where (f : DetectionEvent -> bool) (events : list DetectionEvent) : Z :=
  Z.of_nat (length (List.filter f events)).

(** The sum of the totals of the ten buckets from index [i] on. *)
Definition window_total (series : list MinutePoint) (i : nat) : Z :=
  sum_totals (take 10 (drop i series)).

(** One iteration of the loop of [peak10Min]. *)
Definition peak_step (minuteData : list MinutePoint) (st : Z * nat) (i : nat)
  : Z * nat :=
  let sum := window_sum minuteData i in
  if fst st <? sum then (sum, i) else st.

(** What the scan knows after the start indices below [k]. *)
Definition scanned (w : nat -> Z) (k : nat) (st : Z * nat) : Prop :=
  (forall i, (i < k)%nat -> w i <= fst st)
  /\ ((fst st = 0 /\ snd st = 0%nat)
      \/ (0 < fst st /\ (snd st < k)%nat /\ w (snd st) = fst st
          /\ forall i, (i < snd st)%nat -> w i < fst st)).

(** The place of a number other than NaN in the order of the numbers: its
    class (infinities outermost, zeros in the middle), then exponent and
    mantissa, negated for the negative numbers. *)
Definition order_key (x : number) : Z * Z * Z :=
  match x with
  | S754_infinity true => (-2, 0, 0)
  | S754_finite true m e => (-1, - e, - Z.pos m)
  | S754_zero _ | S754_nan => (0, 0, 0)
  | S754_finite false m e => (1, e, Z.pos m)
  | S754_infinity false => (2, 0, 0)
  end.

Definition lex_compare (a b : Z * Z * Z) : comparison :=
  let '(a1, a2, a3) := a in
  let '(b1, b2, b3) := b in
  match a1 ?= b1 with
  | Eq => match a2 ?= b2 with
          | Eq => a3 ?= b3
          | c => c
          end
  | c => c
  end.

(** The values that [hmsToSeconds] returns: NaN, [+0], or a number above
    zero. *)
Definition offset_like (t : number) : Prop :=
  t = NaN \/ t = zero \/ gt t zero = true.

(** The line of a row of the export. *)
Definition csv_line (r : DetectionEvent) : string :=
  Str.join "," (map csv_quote (csv_fields r)).

(** The lines of the rows, each after a line feed. *)
Definition csv_tail (rows : list DetectionEvent) : string :=
  fold_right (fun r acc => newline ++ csv_line r ++ acc) EmptyString rows.

(** [String(e?.size || empty)]: the string against which [load] checks the
    size of a record. *)
Definition converted_size (e : JS.value) : option string :=
  JS.ToString (JS.or_else (JS.get e "size") (JS.VString "")).

(** The events that the records of a feed give rise to, in order: one for
    each record that the callback of [load] turns into an event; [idx] is the
    position of the first record. *)
Fixpoint derived (idx : nat) (rawEvents : list JS.value) : list DetectionEvent :=
  match rawEvents with
  | [] => []
  | e :: rest =>
      match validate e idx with
      | Some (Some ev) => ev :: derived (S idx) rest
      | _ => derived (S idx) rest
      end
  end.

(** The default of [load] for the confidence. *)
Definition default_confidence : number := of_decimal false 9 (-1).

(** The state of the generator after [k] calls. *)
Definition rng_state (t0 : number) (k : nat) : number :=
  Nat.iter k (fun t => snd (mulberry32_call t)) t0.

(** The number drawn by call [k] (counted from 0) of the generator. *)
Definition draw (t0 : number) (k : nat) : number :=
  fst (mulberry32_call (rng_state t0 k)).

(** The event of index [i] of the synthetic list, from the start state of
    the generator: its size comes from draw [2i], its confidence from draw
    [2i+1]. *)
Definition nth_event (t0 : number) (i : nat) : DetectionEvent :=
  {| e_id := default_id i;
     e_time := toHms (Math_floor (mul (div (of_Z (Z.of_nat i)) (of_Z (Z.of_nat totalEvents)))
                                      (of_Z 3600)));
     e_size := pick_size (draw t0 (2 * i)) zero (seq 0 (length sizes));
     e_confidence :=
       div (Math_round
              (mul (clamp (add (of_decimal false 72 (-2))
                               (mul (draw t0 (2 * i + 1)) (of_decimal false 27 (-2))))
                          zero (of_Z 1))
                   (of_Z 1000)))
           (of_Z 1000);
     e_source := "Cutting Table 1";
     e_timestamp := None |}.

(** An event whose time string makes [hmsToSeconds] overflow to NaN. *)
Definition nan_event : DetectionEvent :=
  {| e_id := "EVT-0001"; e_time := "1e308:-1e308:0"; e_size := Small;
     e_confidence := default_confidence; e_source := "Cutting Table 1";
     e_timestamp := None |}.

(** The feed with the one record from which [load] builds [nan_event]. *)
Definition nan_feed : JS.value :=
  JS.VObject [("events",
    JS.VArray [JS.VObject [("size", JS.VString "Small");
                           ("time", JS.VString "1e308:-1e308:0")]])].

(** A series of 60 buckets with the given totals. *)
Definition series_of (totals : list Z) : list MinutePoint :=
  map (fun t => {| minute := ""; total := t; count_Small := 0; count_Medium := t;
                   count_Large := 0; count_XL := 0 |}) totals.

(** Ten buckets of 5, one of 100, then 49 empty ones. *)
Definition busy_series : list MinutePoint :=
  series_of (repeat 5 10 ++ [100] ++ repeat 0 49)%list.

(** An event with the given time. *)
Definition event_at (time : string) : DetectionEvent :=
  {| e_id := "EVT-0001"; e_time := time; e_size := Medium;
     e_confidence := default_confidence; e_source := "Cutting Table 1";
     e_timestamp := None |}.

(** An event with the given offset label and timestamp. *)
Definition stamped (time : string) (ts : option string) : DetectionEvent :=
  {| e_id := "EVT-0001"; e_time := time; e_size := Medium;
     e_confidence := default_confidence; e_source := "Cutting Table 1";
     e_timestamp := ts |}.

(** The window of the relative mode for a list of events: the lower bound
    and the upper bound (the largest offset of the list). *)
Definition maxOffset (base : list DetectionEvent) : number :=
  Math_max (map timeOffset base).

Definition minOffset (timeRange : TimeRangeKey) (base : list DetectionEvent) : number :=
  Math_max [zero; sub (maxOffset base) (of_Z (60 * minutes_of timeRange))].

Definition in_window (timeRange : TimeRangeKey) (base : list DetectionEvent)
    (t : number) : bool :=
  ge t (minOffset timeRange base) && le t (maxOffset base).

(** The test of the absolute mode, with inclusive bounds. *)
Definition within_bounds (Date_parse : string -> number)
    (dateTimeFrom dateTimeTo : option string) (e : DetectionEvent) : bool :=
  match parseDateTimeMs Date_parse (e_timestamp e) with
  | None => false
  | Some ms =>
      match parseDateTimeMs Date_parse dateTimeFrom with
      | Some f => ge ms f
      | None => true
      end
      && match parseDateTimeMs Date_parse dateTimeTo with
         | Some t => le ms t
         | None => true
         end
  end.

(** A record whose size is an array holding the string Small. *)
Definition array_size_record : JS.value :=
  JS.VObject [("size", JS.VArray [JS.VString "Small"])].

(** A record of size Small whose confidence is [null]. *)
Definition null_confidence_record : JS.value :=
  JS.VObject [("size", JS.VString "Small"); ("confidence", JS.VNull)].

(** A feed of three records: an unknown size, a valid record, a record
    without size. *)
Definition mixed_feed : JS.value :=
  JS.VObject [("events",
    JS.VArray [JS.VObject [("size", JS.VString "Huge")];
               JS.VObject [("size", JS.VString "XL"); ("time", JS.VString "00:07:30");
                           ("confidence", JS.VNumber (of_decimal false 8 (-1)))];
               JS.VObject [("time", JS.VString "00:01:00")]])].

(** Whether the size of a record, converted with [String], is one of the
    four size names. *)
Definition size_is_valid (e : JS.value) : bool :=
  match converted_size e with
  | Some s => existsb (String.eqb s) (map size_name sizes)
  | None => false
  end.

(** The records of a feed with their positions. *)
Definition indexed (rawEvents : list JS.value) : list (nat * JS.value) :=
  combine (seq 0 (length rawEvents)) rawEvents.

(** The records of a feed whose converted size is valid, with their
    positions, in the order of the feed. *)
Definition valid_records (rawEvents : list JS.value) : list (nat * JS.value) :=
  List.filter (fun ie => size_is_valid (snd ie)) (indexed rawEvents).


(** The sum over a series of the counter of one size. *)
Definition sum_counts (size : PizzaSize) (series : list MinutePoint) : Z :=
  fold_right (fun p acc => count_of size p + acc) 0 series.

(** Three events in minutes 0, 7 and 7. *)
Definition three_events : list DetectionEvent :=
  [{| e_id := "EVT-0001"; e_time := "00:07:30"; e_size := XL;
      e_confidence := default_confidence; e_source := "Cutting Table 1";
      e_timestamp := None |};
   {| e_id := "EVT-0002"; e_time := "00:00:10"; e_size := Small;
      e_confidence := default_confidence; e_source := "Cutting Table 1";
      e_timestamp := None |};
   {| e_id := "EVT-0003"; e_time := "00:07:59"; e_size := XL;
      e_confidence := default_confidence; e_source := "Cutting Table 1";
      e_timestamp := None |}].

(** The totals of the 60 buckets of the synthetic events: the 220 offsets
    are spread evenly, four or three to a minute. *)
Definition synthetic_totals : list Z :=
  [4; 4; 3; 4; 4; 3; 4; 4; 3; 4; 4; 3; 4; 4; 3; 4; 4; 3; 4; 4;
   3; 4; 4; 3; 4; 4; 3; 4; 4; 3; 4; 4; 3; 4; 4; 3; 4; 4; 3; 4;
   4; 3; 4; 4; 3; 4; 4; 3; 4; 4; 3; 4; 4; 3; 4; 4; 3; 4; 4; 3].

(** The time strings of the synthetic events: they do not depend on the
    seed. *)
Definition synthetic_times : list string :=
  map (fun i => toHms (of_Z (Z.of_nat i * 3600 / 220))) (seq 0 220).

(** The strings without a colon. *)
Definition colon_free (s : string) : Prop :=
  Forall (fun c => c <> ":"%char) (Str.chars s).

(** The ticks of the minute axis: the two-digit strings 00 to 59. *)
Definition minute_ticks : list string :=
  map (fun i => Str.padStart0 2 (Str.of_int (Z.of_nat i))) (seq 0 60).

(** Lists of integers in strictly increasing order. *)
Fixpoint increasing (l : list Z) : bool :=
  match l with
  | x :: ((y :: _) as rest) => (x <? y) && increasing rest
  | _ => true
  end.

(** The number that a string of digits reads as. *)
Definition digits_value (s : string) : Z := Int32.truncate (NumStr.StringToNumber s).

(** A path for the examples. *)
Definition demo_path : string := "demo/pizza-events.json".

(** Two digits for an integer from 0 to 99. *)
Definition pad2 (z : Z) : string := Str.padStart0 2 (Str.of_int z).

(** The integers from [start], [len] of them. *)
Fixpoint zseq (start : Z) (len : nat) : list Z :=
  match len with
  | O => []
  | S len' => start :: zseq (start + 1) len'
  end.

(** The number 10. *)
Definition c10 : number := S754_finite false 5629499534213120 (-49).

(** The number of synthetic events that a relative window retains. *)
Definition window_keeps (timeRange : TimeRangeKey) : nat :=
  match timeRange with
  | range_5m => 19
  | range_10m => 37
  | range_30m => 111
  | _ => 220
  end.

(** The number that follows the prefix [EVT-] of an identifier. *)
Definition id_number (id : string) : Z :=
  Int32.truncate (NumStr.StringToNumber (String.substring 4 (String.length id - 4) id)).

(** A record whose size is an object with a [toString] of its own that is
    not callable: [String] throws for it. *)
Definition throwing_record : JS.value :=
  JS.VObject [("size", JS.VObject [("toString", JS.VNull)])].

(** A feed with a good record and a throwing one. *)
Definition throwing_feed : JS.value :=
  JS.VObject [("events",
    JS.VArray [JS.VObject [("size", JS.VString "XL")]; throwing_record])].

(** The number of events of a list that have the given size. *)
Definition count_size (z : PizzaSize) (events : list DetectionEvent) : nat :=
  length (List.filter (fun e => size_eqb (e_size e) z) events).

(** The default feed of the page. *)
Definition default_feed : string := "/demo/pizza-events.json".

(** A branch for the examples. *)
Definition branch_7 : BranchOption :=
  {| key := "7"; label := "Khayaban e Ittehad (Domino)"; locationId := of_Z 7 |}.




(** * Properties *)

Local Close Scope string_scope.

(** ** Rounding never invents a NaN *)

Lemma shr_1_nonneg mrs : 0 <= shr_m mrs -> 0 <= shr_m (shr_1 mrs).
Proof.
  destruct mrs as [m r s]; simpl.
  destruct m as [|[p|p|]|[p|p|]]; simpl; lia.
Qed.

Lemma iter_shr_1_nonneg n mrs :
  0 <= shr_m mrs -> 0 <= shr_m (SpecFloat.iter_pos shr_1 n mrs).
Proof.
  revert mrs; induction n as [n IH|n IH|]; intros mrs H; simpl.
  - apply IH, IH, shr_1_nonneg, H.
  - apply IH, IH, H.
  - apply shr_1_nonneg, H.
Qed.

Lemma shr_nonneg mrs e n : 0 <= shr_m mrs -> 0 <= shr_m (fst (shr mrs e n)).
Proof.
  intros H; destruct n; simpl; auto using iter_shr_1_nonneg.
Qed.

Lemma shr_exponent mrs e n : e <= snd (shr mrs e n).
Proof. destruct n; simpl; lia. Qed.

Lemma shr_record_of_loc_m m l : shr_m (shr_record_of_loc m l) = m.
Proof. destruct l as [|[| |]]; reflexivity. Qed.

Lemma shr_fexp_nonneg m e l :
  0 <= m -> 0 <= shr_m (fst (shr_fexp prec emax m e l)).
Proof.
  intros H; unfold shr_fexp. apply shr_nonneg.
  rewrite shr_record_of_loc_m; exact H.
Qed.

Lemma shr_fexp_exponent m e l : e <= snd (shr_fexp prec emax m e l).
Proof. unfold shr_fexp; apply shr_exponent. Qed.

Lemma round_nearest_even_nonneg m l : 0 <= m -> 0 <= round_nearest_even m l.
Proof.
  intros H; destruct l as [|[| |]]; simpl; try lia.
  destruct (Z.even m); lia.
Qed.


Lemma binary_round_aux_shape s mx ex lx :
  0 <= mx -> rounded_shape s ex (binary_round_aux prec emax s mx ex lx).
Proof.
  intros Hm. unfold binary_round_aux.
  pose proof (shr_fexp_nonneg mx ex lx Hm) as H1.
  pose proof (shr_fexp_exponent mx ex lx) as E1.
  destruct (shr_fexp prec emax mx ex lx) as [mrs' e']; simpl in H1, E1.
  pose proof (shr_fexp_nonneg _ e' loc_Exact
                (round_nearest_even_nonneg _ (loc_of_shr_record mrs') H1)) as H2.
  pose proof (shr_fexp_exponent
                (round_nearest_even (shr_m mrs') (loc_of_shr_record mrs')) e' loc_Exact) as E2.
  destruct (shr_fexp prec emax _ e' loc_Exact) as [mrs'' e'']; simpl in H2, E2.
  destruct (shr_m mrs'') as [|p|p]; simpl; [reflexivity | | lia].
  destruct (e'' <=? emax - prec); simpl; [split; [reflexivity | lia] | reflexivity].
Qed.

Lemma div_finite_shape sx mx ex sy my ey :
  exists e, rounded_shape (xorb sx sy) e
              (div (S754_finite sx mx ex) (S754_finite sy my ey)).
Proof.
  unfold div, SFdiv.
  destruct (SFdiv_core_binary prec emax (Z.pos mx) ex (Z.pos my) ey)
    as [[mz ez] lz] eqn:E.
  exists ez. apply binary_round_aux_shape.
  unfold SFdiv_core_binary in E.
  set (m' := match _ - _ - _ with Z0 => _ | Zpos _ => _ | Zneg _ => _ end) in E.
  assert (0 <= m') as Hm'.
  { subst m'. destruct (_ - _ - _); try lia. apply Z.shiftl_nonneg. lia. }
  pose proof (Z_div_mod m' (Z.pos my) ltac:(lia)) as D.
  destruct (Z.div_eucl m' (Z.pos my)) as [q r]. injection E as <- _ _.
  nia.
Qed.

Lemma rounded_shape_weaken s e e' x :
  e' <= e -> rounded_shape s e x -> rounded_shape s e' x.
Proof. destruct x; simpl; intuition lia. Qed.

(** A sharper exponent bound: the first shift already fixes a lower bound. *)
Lemma binary_round_aux_shape_shifted s mx ex lx :
  0 <= mx ->
  rounded_shape s (snd (shr_fexp prec emax mx ex lx))
    (binary_round_aux prec emax s mx ex lx).
Proof.
  intros Hm. unfold binary_round_aux.
  pose proof (shr_fexp_nonneg mx ex lx Hm) as H1.
  destruct (shr_fexp prec emax mx ex lx) as [mrs' e']; simpl in H1 |- *.
  pose proof (shr_fexp_nonneg _ e' loc_Exact
                (round_nearest_even_nonneg _ (loc_of_shr_record mrs') H1)) as H2.
  pose proof (shr_fexp_exponent
                (round_nearest_even (shr_m mrs') (loc_of_shr_record mrs')) e' loc_Exact) as E2.
  destruct (shr_fexp prec emax _ e' loc_Exact) as [mrs'' e'']; simpl in H2, E2.
  destruct (shr_m mrs'') as [|p|p]; simpl; [reflexivity | | lia].
  destruct (e'' <=? emax - prec); simpl; [split; [reflexivity | lia] | reflexivity].
Qed.

(** ** Binary digits *)

Lemma digits2_pos_iter_xO p k :
  digits2_pos (Pos.iter xO p k) = (digits2_pos p + k)%positive.
Proof.
  induction k as [|k IH] using Pos.peano_ind.
  - simpl. lia.
  - rewrite Pos.iter_succ. simpl. rewrite IH. lia.
Qed.

Lemma Zpos_iter_xO p k : Z.pos (Pos.iter xO p k) = Z.pos p * 2 ^ Z.pos k.
Proof.
  induction k as [|k IH] using Pos.peano_ind.
  - simpl. lia.
  - rewrite Pos.iter_succ, Pos2Z.inj_xO, IH, Pos2Z.inj_succ, Z.pow_succ_r; lia.
Qed.

Lemma digits2_pos_bound p : Z.pos p < 2 ^ Z.pos (digits2_pos p).
Proof.
  induction p as [p IH|p IH|]; simpl digits2_pos.
  - rewrite Pos2Z.inj_succ, Z.pow_succ_r by lia. lia.
  - rewrite Pos2Z.inj_succ, Z.pow_succ_r by lia. lia.
  - reflexivity.
Qed.


(** ** Integers as numbers *)


Lemma fexp_digits d : fexp prec emax (Z.pos d + 0) = Z.pos d - 53.
Proof. unfold fexp, emin, prec, emax. lia. Qed.

Lemma shr_fexp_aligned m e :
  Z.pos (digits2_pos m) = 53 -> -1074 <= e ->
  shr_fexp prec emax (Z.pos m) e loc_Exact
  = ({| shr_m := Z.pos m; shr_r := false; shr_s := false |}, e).
Proof.
  intros Hd He. unfold shr_fexp. simpl Zdigits2. rewrite Hd.
  replace (fexp prec emax (53 + e) - e) with 0.
  - reflexivity.
  - unfold fexp, emin, prec, emax. lia.
Qed.

Lemma binary_round_int_small s p :
  Z.pos (digits2_pos p) <= 53 ->
  binary_round prec emax s p 0
  = S754_finite s (aligned p) (Z.pos (digits2_pos p) - 53).
Proof.
  intros Hd. unfold binary_round. rewrite fexp_digits.
  assert (Z.pos (digits2_pos (aligned p)) = 53) as Ha.
  { unfold aligned. destruct (53 - Z.pos (digits2_pos p)) as [|k|k] eqn:E; try lia.
    rewrite digits2_pos_iter_xO. lia. }
  assert (shl_align p 0 (Z.pos (digits2_pos p) - 53)
          = (aligned p, Z.pos (digits2_pos p) - 53)) as ->.
  { unfold shl_align, aligned. rewrite Z.sub_0_r.
    destruct (Z.pos (digits2_pos p) - 53) as [|k|k] eqn:E; try lia.
    - replace (53 - Z.pos (digits2_pos p)) with 0 by lia. reflexivity.
    - replace (53 - Z.pos (digits2_pos p)) with (Z.pos k) by lia. reflexivity. }
  unfold binary_round_aux.
  rewrite shr_fexp_aligned by lia. cbn [shr_m loc_of_shr_record round_nearest_even].
  rewrite shr_fexp_aligned by lia. cbn [shr_m].
  replace (Z.pos (digits2_pos p) - 53 <=? emax - prec) with true;
    [reflexivity | symmetry; apply Z.leb_le; unfold emax, prec; lia].
Qed.

Lemma binary_round_int_large s p :
  53 < Z.pos (digits2_pos p) ->
  rounded_shape s 1 (binary_round prec emax s p 0).
Proof.
  intros Hd. unfold binary_round. rewrite fexp_digits.
  assert (shl_align p 0 (Z.pos (digits2_pos p) - 53) = (p, 0)) as ->.
  { unfold shl_align. rewrite Z.sub_0_r.
    destruct (Z.pos (digits2_pos p) - 53) eqn:E; try lia; reflexivity. }
  eapply rounded_shape_weaken; [| apply binary_round_aux_shape_shifted; lia].
  unfold shr_fexp. simpl Zdigits2. rewrite fexp_digits, Z.sub_0_r.
  destruct (Z.pos (digits2_pos p) - 53) eqn:E; try lia. simpl. lia.
Qed.

Lemma to_integer_aligned p :
  Z.pos (digits2_pos p) <= 53 ->
  to_integer (S754_finite false (aligned p) (Z.pos (digits2_pos p) - 53))
  = Some (Z.pos p).
Proof.
  intros Hd. unfold to_integer, aligned.
  destruct (53 - Z.pos (digits2_pos p)) as [|k|k] eqn:E; try lia.
  - replace (Z.pos (digits2_pos p) - 53) with 0 by lia. simpl. f_equal. lia.
  - replace (Z.pos (digits2_pos p) - 53) with (- Z.pos k) by lia.
    replace (0 <=? - Z.pos k) with false by (symmetry; apply Z.leb_gt; lia).
    rewrite Z.opp_involutive, Zpos_iter_xO.
    rewrite Z.mod_mul by lia. simpl (0 =? 0).
    rewrite Z.div_mul by lia. reflexivity.
Qed.

Lemma binary_round_int_shape s p :
  rounded_shape s (-52) (binary_round prec emax s p 0).
Proof.
  destruct (Z_le_gt_dec (Z.pos (digits2_pos p)) 53) as [H|H].
  - rewrite binary_round_int_small by exact H. simpl. split; [reflexivity | lia].
  - eapply rounded_shape_weaken; [| apply binary_round_int_large; lia]. lia.
Qed.

(** ** The bucket of a quotient *)


Lemma of_Z_59 : of_Z 59 = c59.
Proof. vm_compute. reflexivity. Qed.

Lemma of_Z_60 : of_Z 60 = c60.
Proof. vm_compute. reflexivity. Qed.

Lemma clamp_0_59 y :
  clamp y zero (of_Z 59) = min_step c59 (max_step zero y).
Proof. rewrite of_Z_59. reflexivity. Qed.

Lemma clamp_negative y e :
  rounded_shape true e y -> clamp y zero (of_Z 59) = zero.
Proof.
  rewrite clamp_0_59. destruct y as [s|s| |s m e']; simpl rounded_shape.
  - intros Hs; subst s. reflexivity.
  - intros Hs; subst s. reflexivity.
  - tauto.
  - intros [Hs _]; subst s. reflexivity.
Qed.

Lemma SFcompare_positive m e m' e' :
  SFcompare (S754_finite false m e) (S754_finite false m' e')
  = Some match e ?= e' with
         | Lt => Lt
         | Gt => Gt
         | Eq => Pos.compare_cont Eq m m'
         end.
Proof. reflexivity. Qed.

Lemma clamp_positive m e :
  clamp (S754_finite false m e) zero (of_Z 59)
  = if lt (S754_finite false m e) c59 then S754_finite false m e else c59.
Proof. rewrite clamp_0_59. reflexivity. Qed.

Lemma lt_c59 m e :
  lt (S754_finite false m e) c59
  = match e ?= -47 with
    | Lt => true
    | Gt => false
    | Eq => match Pos.compare_cont Eq m 8303511812964352 with
            | Lt => true
            | _ => false
            end
    end.
Proof.
  unfold lt, c59. rewrite SFcompare_positive. destruct (e ?= -47); reflexivity.
Qed.

Lemma clamp_large m e :
  -47 < e -> clamp (S754_finite false m e) zero (of_Z 59) = c59.
Proof.
  intros He. rewrite clamp_positive, lt_c59.
  destruct (Z.compare_spec e (-47)); try lia. reflexivity.
Qed.

Lemma to_index_c59 : to_index 60 c59 = Some 59%nat.
Proof. vm_compute. reflexivity. Qed.

Lemma to_index_zero : to_index 60 zero = Some 0%nat.
Proof. vm_compute. reflexivity. Qed.

Lemma clamp_zero s : clamp (S754_zero s) zero (of_Z 59) = zero.
Proof. destruct s; vm_compute; reflexivity. Qed.

Lemma clamp_infinity s :
  clamp (S754_infinity s) zero (of_Z 59) = if s then zero else c59.
Proof. destruct s; vm_compute; reflexivity. Qed.

Lemma to_index_small p :
  Z.pos (digits2_pos p) <= 53 -> Z.pos p < 59 ->
  to_index 60 (S754_finite false (aligned p) (Z.pos (digits2_pos p) - 53))
  = Some (Pos.to_nat p).
Proof.
  intros H Hp. unfold to_index. rewrite to_integer_aligned by exact H.
  replace ((0 <=? Z.pos p) && (Z.pos p <? Z.of_nat 60)) with true; [reflexivity |].
  symmetry. apply andb_true_iff; split; [apply Z.leb_le | apply Z.ltb_lt]; lia.
Qed.

Lemma aligned_below_59 p :
  Z.pos (digits2_pos p) - 53 = -47 ->
  Pos.compare_cont Eq (aligned p) 8303511812964352 = Lt -> Z.pos p < 59.
Proof.
  intros E C.
  assert (aligned p = Pos.iter xO p 47) as Ha.
  { unfold aligned. replace (53 - Z.pos (digits2_pos p)) with 47 by lia. reflexivity. }
  pose proof (Zpos_iter_xO p 47) as Hz.
  assert (2 ^ 47 = 140737488355328) as Hp by (vm_compute; reflexivity).
  rewrite Hp in Hz. rewrite <- Ha in Hz.
  assert (Z.pos (aligned p) < 8303511812964352) as C'.
  { apply Pos2Z.pos_lt_pos. exact C. }
  lia.
Qed.

Lemma clamp_positive_int p :
  exists i, to_index 60 (clamp (binary_round prec emax false p 0) zero (of_Z 59))
            = Some i.
Proof.
  destruct (Z_le_gt_dec (Z.pos (digits2_pos p)) 53) as [H|H].
  - rewrite binary_round_int_small by exact H.
    rewrite clamp_positive, lt_c59.
    destruct (Z.compare_spec (Z.pos (digits2_pos p) - 53) (-47)) as [E|E|E].
    + destruct (Pos.compare_cont Eq (aligned p) 8303511812964352) eqn:C;
        try (eexists; apply to_index_c59).
      eexists. apply to_index_small; [exact H |].
      apply aligned_below_59; assumption.
    + eexists. apply to_index_small; [exact H |].
      pose proof (digits2_pos_bound p) as Hb.
      assert (2 ^ Z.pos (digits2_pos p) <= 2 ^ 5) by (apply Z.pow_le_mono_r; lia).
      change (2 ^ 5) with 32 in *. lia.
    + eexists; apply to_index_c59.
  - pose proof (binary_round_int_large false p ltac:(lia)) as S.
    destruct (binary_round prec emax false p 0) as [s|s| |s m e]; simpl in S; try tauto.
    + rewrite clamp_zero. eexists; apply to_index_zero.
    + subst s. rewrite clamp_infinity. eexists; apply to_index_c59.
    + destruct S as [Hs S]; subst s. rewrite clamp_large by lia.
      eexists; apply to_index_c59.
Qed.

(** Whatever number other than NaN is floored and clamped, the result
    designates one of the 60 buckets. *)
Lemma floor_clamp_index q :
  isNaN q = false ->
  exists i, to_index 60 (clamp (Math_floor q) zero (of_Z 59)) = Some i.
Proof.
  intros Hq. destruct q as [s|s| |s m e]; try discriminate.
  - simpl Math_floor. rewrite clamp_zero. eexists; apply to_index_zero.
  - simpl Math_floor. rewrite clamp_infinity.
    destruct s; eexists; [apply to_index_zero | apply to_index_c59].
  - unfold Math_floor. destruct (0 <=? e) eqn:He.
    + apply Z.leb_le in He. destruct s.
      * rewrite (clamp_negative _ e) by (simpl; split; [reflexivity | lia]).
        eexists; apply to_index_zero.
      * rewrite clamp_large by lia. eexists; apply to_index_c59.
    + apply Z.leb_gt in He.
      set (n := Z.shiftr (cond_Zopp s (Z.pos m)) (- e)).
      destruct s.
      * assert (n < 0) as Hn by (apply Z.shiftr_neg; simpl; lia).
        destruct n as [|p|p]; try lia.
        simpl binary_normalize.
        rewrite (clamp_negative _ (-52)) by apply binary_round_int_shape.
        eexists; apply to_index_zero.
      * assert (0 <= n) as Hn by (apply Z.shiftr_nonneg; simpl; lia).
        destruct n as [|p|p]; try lia.
        -- simpl binary_normalize. rewrite clamp_zero.
           eexists; apply to_index_zero.
        -- simpl binary_normalize. apply clamp_positive_int.
Qed.

Lemma div_60_not_nan sec : isNaN sec = false -> isNaN (div sec (of_Z 60)) = false.
Proof.
  rewrite of_Z_60. destruct sec as [s|s| |s m e]; try discriminate; intros _.
  - reflexivity.
  - reflexivity.
  - destruct (div_finite_shape s m e false 8444249301319680 (-47)) as [e' S].
    unfold c60. destruct (div _ _); simpl in S; tauto || reflexivity.
Qed.

Lemma bucket_defined sec :
  isNaN sec = false ->
  exists i, to_index 60 (clamp (Math_floor (div sec (of_Z 60))) zero (of_Z 59))
            = Some i.
Proof. intros H. apply floor_clamp_index, div_60_not_nan, H. Qed.

Lemma bucket_undefined :
  to_index 60 (clamp (Math_floor (div NaN (of_Z 60))) zero (of_Z 59)) = None.
Proof. vm_compute. reflexivity. Qed.

(** ** The aggregation *)

Lemma minuteData_snoc events e :
  minuteData (events ++ [e]) = minute_step (minuteData events) e.
Proof. unfold minuteData. rewrite fold_left_app. reflexivity. Qed.

Lemma minute_step_length buckets e :
  length (minute_step buckets e) = length buckets.
Proof.
  unfold minute_step. destruct (to_index _ _); [apply length_alter | reflexivity].
Qed.

Lemma minuteData_length events : length (minuteData events) = mins.
Proof.
  induction events as [|e events IH] using rev_ind.
  - reflexivity.
  - rewrite minuteData_snoc, minute_step_length. exact IH.
Qed.

Lemma to_index_bound len x i : to_index len x = Some i -> (i < len)%nat.
Proof.
  unfold to_index. destruct (to_integer x) as [z|]; [|discriminate].
  destruct ((0 <=? z) && (z <? Z.of_nat len)) eqn:E; [|discriminate].
  intros [= <-]. apply andb_true_iff in E as [E1 E2].
  apply Z.leb_le in E1. apply Z.ltb_lt in E2. lia.
Qed.

Lemma minute_step_bucket buckets e :
  length buckets = mins ->
  minute_step buckets e
  = match bucket_of e with
    | Some i => alter (bump (e_size e)) i buckets
    | None => buckets
    end.
Proof. intros H. unfold minute_step, bucket_of. rewrite H. reflexivity. Qed.

Lemma bump_balanced size p : balanced p -> balanced (bump size p).
Proof. unfold balanced. destruct size; simpl; lia. Qed.

Lemma minuteData_balanced events : Forall balanced (minuteData events).
Proof.
  induction events as [|e events IH] using rev_ind.
  - apply List.Forall_forall. intros b Hb.
    apply in_map_iff in Hb as (i & <- & _). reflexivity.
  - rewrite minuteData_snoc. unfold minute_step.
    destruct (to_index _ _); [|exact IH].
    apply Forall_alter; [exact IH |]. intros x _. apply bump_balanced.
Qed.

Lemma sum_totals_cons p series :
  sum_totals (p :: series) = total p + sum_totals series.
Proof. reflexivity. Qed.

Lemma sum_totals_alter size i buckets :
  (i < length buckets)%nat ->
  sum_totals (alter (bump size) i buckets) = sum_totals buckets + 1.
Proof.
  revert i. induction buckets as [|b buckets IH]; intros i Hi; simpl in Hi; [lia|].
  destruct i as [|i].
  - change (alter (bump size) 0%nat (b :: buckets)) with (bump size b :: buckets).
    rewrite !sum_totals_cons. simpl. lia.
  - change (alter (bump size) (S i) (b :: buckets))
      with (b :: alter (bump size) i buckets).
    rewrite !sum_totals_cons, IH by lia. lia.
Qed.

Lemma count_where_snoc f events e :
  count_where f (events ++ [e]) = count_where f events + (if f e then 1 else 0).
Proof.
  unfold count_where. rewrite List.filter_app, List.length_app. simpl.
  destruct (f e); simpl; lia.
Qed.

Lemma sum_totals_minuteData events :
  sum_totals (minuteData events)
  = count_where (fun e => match bucket_of e with Some _ => true | None => false end)
      events.
Proof.
  induction events as [|e events IH] using rev_ind.
  - vm_compute. reflexivity.
  - rewrite minuteData_snoc, count_where_snoc,
      minute_step_bucket by apply minuteData_length.
    destruct (bucket_of e) as [i|] eqn:E.
    + rewrite sum_totals_alter, IH; [reflexivity |].
      rewrite minuteData_length. eapply to_index_bound, E.
    + rewrite IH. lia.
Qed.

(** An event has a bucket exactly when its offset is a number. *)
Lemma bucket_of_placed e :
  match bucket_of e with Some _ => true | None => false end
  = negb (isNaN (timeOffset e)).
Proof.
  unfold bucket_of, minIdx, timeOffset.
  change (of_Z (Z.of_nat mins - 1)) with (of_Z 59). change mins with 60%nat.
  destruct (isNaN (hmsToSeconds (e_time e))) eqn:E.
  - destruct (hmsToSeconds (e_time e)); try discriminate.
    fold NaN. rewrite bucket_undefined. reflexivity.
  - destruct (bucket_defined _ E) as [i ->]. reflexivity.
Qed.

Lemma count_where_ext f g events :
  (forall e, f e = g e) -> count_where f events = count_where g events.
Proof.
  intros H. unfold count_where. f_equal. f_equal.
  induction events as [|e events IH]; simpl; [reflexivity|].
  rewrite H, IH. reflexivity.
Qed.

Lemma sum_totals_placed events :
  sum_totals (minuteData events) = Z.of_nat (length (placed events)).
Proof.
  rewrite sum_totals_minuteData. unfold placed.
  apply (count_where_ext _ (fun e => negb (isNaN (timeOffset e)))).
  apply bucket_of_placed.
Qed.

Lemma totals_fold series acc :
  t_total (fold_left
    (fun base p =>
       {| t_total := t_total base + total p;
          t_Small := t_Small base + count_Small p;
          t_Medium := t_Medium base + count_Medium p;
          t_Large := t_Large base + count_Large p;
          t_XL := t_XL base + count_XL p |}) series acc)
  = t_total acc + sum_totals series.
Proof.
  revert acc. induction series as [|p series IH]; intros acc.
  - simpl. lia.
  - rewrite sum_totals_cons. simpl fold_left. rewrite IH. simpl. lia.
Qed.

Lemma totals_total series : t_total (totals series) = sum_totals series.
Proof. unfold totals. rewrite totals_fold. reflexivity. Qed.

Lemma lookup_map {A B : Type} (f : A -> B) (l : list A) (i : nat) :
  map f l !! i = option_map f (l !! i).
Proof.
  revert i. induction l as [|x l IH]; intros [|i]; simpl; auto.
Qed.

(** What each bucket holds: its label, and the counts of the events that
    fall in it. *)
Lemma minuteData_lookup events i b :
  minuteData events !! i = Some b ->
  minute b = toMinLabel i
  /\ total b = count_where (in_bucket i) events
  /\ forall size, count_of size b
                  = count_where (fun e => in_bucket i e && size_eqb (e_size e) size) events.
Proof.
  revert b. induction events as [|e events IH] using rev_ind; intros b Hb.
  - change (minuteData []) with (map empty_point (seq 0 mins)) in Hb.
    rewrite lookup_map in Hb.
    destruct (seq 0 mins !! i) as [j|] eqn:Ej; [|discriminate].
    apply lookup_seq in Ej as [-> _]. injection Hb as <-.
    split; [reflexivity|]. split; [reflexivity|]. intros []; reflexivity.
  - rewrite minuteData_snoc, minute_step_bucket in Hb by apply minuteData_length.
    rewrite !count_where_snoc.
    assert (forall size, count_where (fun e0 => in_bucket i e0 && size_eqb (e_size e0) size)
                           (events ++ [e])
                         = count_where (fun e0 => in_bucket i e0 && size_eqb (e_size e0) size)
                             events
                           + (if in_bucket i e && size_eqb (e_size e) size then 1 else 0)) as Hc
      by (intros; apply count_where_snoc).
    unfold in_bucket at 2. unfold in_bucket in Hc at 3.
    destruct (bucket_of e) as [j|] eqn:E.
    + destruct (Nat.eqb_spec j i) as [->|Hne].
      * rewrite list_lookup_alter_eq in Hb.
        destruct (minuteData events !! i) as [b0|] eqn:E0; [|discriminate].
        injection Hb as <-. destruct (IH b0 eq_refl) as (H1 & H2 & H3).
        split; [exact H1|]. split; [simpl; lia|].
        intros size. rewrite Hc, <- H3.
        destruct (e_size e), size; simpl; lia.
      * rewrite list_lookup_alter_ne in Hb by exact Hne.
        destruct (IH b Hb) as (H1 & H2 & H3).
        split; [exact H1|]. split; [lia|].
        intros size. rewrite Hc, <- H3. simpl. lia.
    + destruct (IH b Hb) as (H1 & H2 & H3).
      split; [exact H1|]. split; [lia|].
      intros size. rewrite Hc, <- H3. simpl. lia.
Qed.

(** ** The busiest window *)

Lemma window_sum_fold (series : list MinutePoint) i js acc :
  fold_left
    (fun sum j => sum + match series !! (i + j)%nat with
                        | Some p => total p
                        | None => 0
                        end) js acc
  = acc + fold_right (fun j s => match series !! (i + j)%nat with
                                 | Some p => total p
                                 | None => 0
                                 end + s) 0 js.
Proof.
  revert acc. induction js as [|j js IH]; intros acc; simpl.
  - lia.
  - rewrite IH. lia.
Qed.

Lemma sum_totals_take_drop_from (series : list MinutePoint) i a n :
  sum_totals (take n (drop (i + a) series))
  = fold_right (fun j s => match series !! (i + j)%nat with
                           | Some p => total p
                           | None => 0
                           end + s) 0 (seq a n).
Proof.
  revert a. induction n as [|n IH]; intros a.
  - reflexivity.
  - simpl seq. simpl fold_right. rewrite <- IH.
    destruct (series !! (i + a)%nat) as [p|] eqn:E.
    + rewrite (drop_S _ _ _ E). simpl take. rewrite sum_totals_cons.
      replace (i + S a)%nat with (S (i + a)) by lia. reflexivity.
    + apply lookup_ge_None in E.
      rewrite !drop_ge by lia. rewrite !take_nil. reflexivity.
Qed.

Lemma sum_totals_take_drop (series : list MinutePoint) i n :
  sum_totals (take n (drop i series))
  = fold_right (fun j s => match series !! (i + j)%nat with
                           | Some p => total p
                           | None => 0
                           end + s) 0 (seq 0 n).
Proof.
  rewrite <- sum_totals_take_drop_from, Nat.add_0_r. reflexivity.
Qed.

(** The inner loop computes the sum of the ten totals. *)
Lemma window_sum_total series i : window_sum series i = window_total series i.
Proof.
  unfold window_sum, window_total.
  rewrite window_sum_fold, sum_totals_take_drop. lia.
Qed.

Lemma peak_scan_fold series :
  peak_scan series
  = fold_left (peak_step series)
      (seq 0 (Z.to_nat (Z.of_nat (length series) - 10 + 1))) (0, 0%nat).
Proof. reflexivity. Qed.

Lemma scanned_step series k st :
  scanned (window_sum series) k st ->
  scanned (window_sum series) (S k) (peak_step series st k).
Proof.
  intros [Hle Hst]. unfold peak_step.
  destruct (Z.ltb_spec (fst st) (window_sum series k)) as [Hlt|Hge].
  - split; simpl.
    + intros i Hi. destruct (Nat.eq_dec i k) as [->|Hne]; [lia|].
      specialize (Hle i ltac:(lia)). lia.
    + right. destruct Hst as [[H0 _]|(Hp & _ & _ & _)].
      * repeat split; try lia. intros i Hi. specialize (Hle i Hi). lia.
      * repeat split; try lia. intros i Hi. specialize (Hle i Hi). lia.
  - split.
    + intros i Hi. destruct (Nat.eq_dec i k) as [->|Hne]; [lia|].
      apply Hle. lia.
    + destruct Hst as [H0|(Hp & Hk & Hw & Hf)]; [left; exact H0|].
      right. repeat split; auto; lia.
Qed.

Lemma scanned_fold series k :
  scanned (window_sum series) k
    (fold_left (peak_step series) (seq 0 k) (0, 0%nat)).
Proof.
  induction k as [|k IH].
  - split; [intros i Hi; lia | left; split; reflexivity].
  - rewrite seq_S, fold_left_app. simpl. apply scanned_step, IH.
Qed.

Lemma sum_totals_nonneg series :
  Forall (fun p => 0 <= total p) series -> 0 <= sum_totals series.
Proof.
  induction 1 as [|p series Hp _ IH]; [reflexivity|].
  rewrite sum_totals_cons. lia.
Qed.

Lemma window_sum_nonneg series i :
  Forall (fun p => 0 <= total p) series -> 0 <= window_sum series i.
Proof.
  intros H. rewrite window_sum_total. apply sum_totals_nonneg.
  apply Forall_take, Forall_drop, H.
Qed.

(** The totals of an aggregation are counts. *)
Lemma minuteData_nonneg events :
  Forall (fun p => 0 <= total p) (minuteData events).
Proof.
  apply Forall_lookup. intros i b Hb.
  destruct (minuteData_lookup events i b Hb) as (_ & -> & _).
  unfold count_where. lia.
Qed.

(** ** The order of the numbers *)

Lemma SFcompare_key a b :
  isNaN a = false -> isNaN b = false ->
  SFcompare a b = Some (lex_compare (order_key a) (order_key b)).
Proof.
  intros Ha Hb.
  destruct a as [sa|sa| |sa ma ea]; try discriminate;
  destruct b as [sb|sb| |sb mb eb]; try discriminate;
  try destruct sa; try destruct sb; try reflexivity; simpl.
  - rewrite Z.compare_opp. destruct (eb ?= ea) eqn:E.
    + apply Z.compare_eq in E. subst. rewrite Z.compare_refl.
      replace (Pos.compare_cont Eq ma mb) with (Pos.compare ma mb) by reflexivity.
      rewrite <- Pos.compare_antisym. reflexivity.
    + rewrite Z.compare_antisym, E. reflexivity.
    + rewrite Z.compare_antisym, E. reflexivity.
Qed.

Lemma lex_compare_refl a : lex_compare a a = Eq.
Proof. destruct a as [[a1 a2] a3]. simpl. rewrite !Z.compare_refl. reflexivity. Qed.

Lemma lex_compare_antisym a b : lex_compare b a = CompOpp (lex_compare a b).
Proof.
  destruct a as [[a1 a2] a3], b as [[b1 b2] b3]. simpl.
  rewrite (Z.compare_antisym a1 b1), (Z.compare_antisym a2 b2), (Z.compare_antisym a3 b3).
  destruct (a1 ?= b1); simpl; try reflexivity.
  destruct (a2 ?= b2); simpl; reflexivity.
Qed.

Lemma lex_compare_le_trans a b c :
  lex_compare a b <> Gt -> lex_compare b c <> Gt -> lex_compare a c <> Gt.
Proof.
  destruct a as [[a1 a2] a3], b as [[b1 b2] b3], c as [[c1 c2] c3]. simpl.
  destruct (Z.compare_spec a1 b1), (Z.compare_spec b1 c1), (Z.compare_spec a1 c1);
    try lia; try congruence;
  destruct (Z.compare_spec a2 b2), (Z.compare_spec b2 c2), (Z.compare_spec a2 c2);
    try lia; try congruence;
  destruct (Z.compare_spec a3 b3), (Z.compare_spec b3 c3), (Z.compare_spec a3 c3);
    try lia; congruence.
Qed.

Lemma le_key a b :
  isNaN a = false -> isNaN b = false ->
  le a b = true <-> lex_compare (order_key a) (order_key b) <> Gt.
Proof.
  intros Ha Hb. unfold le. rewrite SFcompare_key by assumption.
  destruct (lex_compare _ _); split; congruence.
Qed.

Lemma le_refl a : isNaN a = false -> le a a = true.
Proof. intros H. apply le_key; auto. rewrite lex_compare_refl. discriminate. Qed.

Lemma le_trans a b c :
  isNaN a = false -> isNaN b = false -> isNaN c = false ->
  le a b = true -> le b c = true -> le a c = true.
Proof.
  intros Ha Hb Hc Hab Hbc. apply le_key; auto.
  apply (lex_compare_le_trans _ (order_key b)); apply le_key; auto.
Qed.

Lemma gt_le a b : gt a b = true -> le b a = true.
Proof.
  unfold gt, le. intros H.
  destruct a as [sa|sa| |sa ma ea]; try discriminate;
  destruct b as [sb|sb| |sb mb eb]; try discriminate.
  all: rewrite SFcompare_key in * by reflexivity.
  all: rewrite lex_compare_antisym; destruct (lex_compare _ _); try discriminate; reflexivity.
Qed.

Lemma not_gt_le a b :
  isNaN a = false -> isNaN b = false -> gt a b = false -> le a b = true.
Proof.
  unfold gt, le. intros Ha Hb. rewrite SFcompare_key by assumption.
  destruct (lex_compare _ _); congruence.
Qed.

(** For numbers that compare, [<] is the negation of [>=] and [>] the
    negation of [<=]. *)
Lemma lt_negb_ge a b :
  isNaN a = false -> isNaN b = false -> lt a b = negb (ge a b).
Proof.
  unfold lt, ge. intros Ha Hb. rewrite SFcompare_key by assumption.
  destruct (lex_compare _ _); reflexivity.
Qed.

Lemma gt_negb_le a b :
  isNaN a = false -> isNaN b = false -> gt a b = negb (le a b).
Proof.
  unfold gt, le. intros Ha Hb. rewrite SFcompare_key by assumption.
  destruct (lex_compare _ _); reflexivity.
Qed.

(** ** [Math.max] *)

Lemma max_step_nan_l n : max_step NaN n = NaN.
Proof. reflexivity. Qed.

Lemma fold_max_nan l : fold_left max_step l NaN = NaN.
Proof. induction l as [|x l IH]; simpl; [reflexivity | exact IH]. Qed.

Lemma max_step_not_nan h n :
  isNaN h = false -> isNaN n = false -> isNaN (max_step h n) = false.
Proof.
  intros Hh Hn. unfold max_step.
  destruct h as [sh|sh| |sh mh eh]; try discriminate;
  destruct n as [sn|sn| |sn mn en]; try discriminate;
  try destruct sh; try destruct sn; try reflexivity;
  match goal with |- context [gt ?a ?b] => destruct (gt a b) end; reflexivity.
Qed.

Lemma max_step_choice h n :
  isNaN h = false -> isNaN n = false ->
  (max_step h n = h \/ max_step h n = n)
  /\ le h (max_step h n) = true /\ le n (max_step h n) = true.
Proof.
  intros Hh Hn.
  assert (max_step h n = (if gt n h then n else h)
          \/ (h = S754_zero true /\ n = S754_zero false /\ max_step h n = n)) as [E|(-> & -> & E)].
  { unfold max_step.
    destruct h as [[|]|sh| |sh mh eh]; try discriminate;
    destruct n as [[|]|sn| |sn mn en]; try discriminate;
    first [left; reflexivity | right; repeat split]. }
  - rewrite E. destruct (gt n h) eqn:G.
    + split; [right; reflexivity|]. split; [apply gt_le, G | apply le_refl, Hn].
    + split; [left; reflexivity|]. split; [apply le_refl, Hh | apply not_gt_le; auto].
  - rewrite E. split; [right; reflexivity|]. split; reflexivity.
Qed.

(** Without NaN among the arguments, the fold of [Math.max] returns one of
    them (or its start value), and none is above it. *)
Lemma fold_max_spec l acc :
  isNaN acc = false -> Forall (fun t => isNaN t = false) l ->
  let r := fold_left max_step l acc in
  isNaN r = false /\ (r = acc \/ In r l) /\ le acc r = true
  /\ Forall (fun t => le t r = true) l.
Proof.
  intros Ha Hl. revert acc Ha.
  induction Hl as [|t l Ht Hl IH]; intros acc Ha; simpl.
  - repeat split; auto using le_refl.
  - pose proof (max_step_not_nan acc t Ha Ht) as Hn.
    destruct (max_step_choice acc t Ha Ht) as (Hc & Hle1 & Hle2).
    destruct (IH _ Hn) as (Hr & Hin & Hle & Hall).
    split; [exact Hr|]. split; [|split].
    + destruct Hin as [Hin|Hin]; [|right; right; exact Hin].
      rewrite Hin. destruct Hc as [Hc|Hc]; rewrite Hc;
        [left; reflexivity | right; left; reflexivity].
    + apply (le_trans acc (max_step acc t)); assumption.
    + constructor; [|exact Hall].
      apply (le_trans t (max_step acc t)); assumption.
Qed.

(** ** The offsets of events *)

Lemma Math_max_zero y : Math_max [zero; y] = max_step zero y.
Proof. reflexivity. Qed.

Lemma max_step_zero_range y : offset_like (max_step zero y).
Proof.
  unfold offset_like.
  destruct y as [[|]|[|]| |[|] m e];
    first [left; reflexivity | right; left; reflexivity | right; right; reflexivity].
Qed.

Lemma hmsToSeconds_range hms : offset_like (hmsToSeconds hms).
Proof.
  unfold hmsToSeconds.
  destruct (map NumStr.StringToNumber (Str.split ":" hms)) as [|h [|m [|s [|x l]]]];
    try (right; left; reflexivity).
  destruct (negb (isFinite h) || negb (isFinite m) || negb (isFinite s));
    [right; left; reflexivity|].
  rewrite Math_max_zero. apply max_step_zero_range.
Qed.

Lemma max_step_start t :
  offset_like t -> max_step zero t = max_step (S754_infinity true) t.
Proof.
  intros [->|[->|G]]; try reflexivity.
  destruct t as [s|s| |s m e]; try discriminate; destruct s; try discriminate;
    reflexivity.
Qed.

(** Putting 0 in front of the offsets of a non-empty list does not change
    their maximum. *)
Lemma Math_max_offsets t times :
  offset_like t -> Math_max (zero :: t :: times) = Math_max (t :: times).
Proof.
  intros Ht. unfold Math_max. cbn [fold_left].
  change (max_step (S754_infinity true) zero) with zero.
  rewrite (max_step_start t Ht). reflexivity.
Qed.

Lemma offset_like_above_ninf t :
  offset_like t -> isNaN t = false -> max_step (S754_infinity true) t = t.
Proof.
  intros [->|[->|G]] Hn; try discriminate; try reflexivity.
  destruct t as [s|s| |s m e]; try discriminate; destruct s; try discriminate;
    reflexivity.
Qed.

(** The maximum of the offsets of a non-empty list without NaN is one of
    them, and none is above it. *)
Lemma Math_max_offsets_spec t times :
  Forall offset_like (t :: times) ->
  Forall (fun x => isNaN x = false) (t :: times) ->
  let M := Math_max (t :: times) in
  isNaN M = false /\ In M (t :: times) /\ Forall (fun x => le x M = true) (t :: times).
Proof.
  intros Ho Hn. inversion Ho as [|? ? Ht _]; subst.
  inversion Hn as [|? ? Hnt Hnl]; subst.
  unfold Math_max. cbn [fold_left]. rewrite (offset_like_above_ninf t Ht Hnt).
  destruct (fold_max_spec times t Hnt Hnl) as (Hr & Hin & Hle & Hall).
  split; [exact Hr|]. split.
  - destruct Hin as [->|Hin]; [left; reflexivity | right; exact Hin].
  - constructor; assumption.
Qed.

(** With NaN among the arguments the maximum is NaN. *)
Lemma fold_max_with_nan l acc :
  Exists (fun t => isNaN t = true) l -> fold_left max_step l acc = NaN.
Proof.
  intros H. revert acc. induction H as [t l Ht|t l _ IH]; intros acc; simpl.
  - destruct t; try discriminate.
    replace (max_step acc S754_nan) with NaN by (destruct acc as [[]|[]| |[]]; reflexivity).
    apply fold_max_nan.
  - apply IH.
Qed.

Local Open Scope string_scope.
Local Open Scope Z_scope.

(** ** Strings *)

Lemma append_assoc (a b c : string) : (a ++ b) ++ c = a ++ (b ++ c).
Proof. induction a as [|x a IH]; simpl; [reflexivity | rewrite IH; reflexivity]. Qed.

Lemma append_nil_r (a : string) : a ++ EmptyString = a.
Proof. induction a as [|x a IH]; simpl; [reflexivity | rewrite IH; reflexivity]. Qed.

Lemma join_cons sep p q rest :
  Str.join sep (p :: q :: rest) = p ++ sep ++ Str.join sep (q :: rest).
Proof. reflexivity. Qed.

(** ** The export read back *)

Lemma downloadCsv_lines rows :
  downloadCsv rows = Str.join "," csv_header ++ csv_tail rows.
Proof.
  unfold downloadCsv. fold csv_line.
  generalize (Str.join "," csv_header) as h.
  induction rows as [|r rows IH]; intros h.
  - simpl. rewrite append_nil_r. reflexivity.
  - simpl map. rewrite join_cons. rewrite IH. reflexivity.
Qed.

Lemma scan_quoted f field row rows rest :
  csv_scan Quoted field row rows (Str.double_quotes f ++ String Str.dquote rest)
  = csv_scan QuoteSeen (rev (Str.chars f) ++ field)%list row rows rest.
Proof.
  revert field. induction f as [|c f IH]; intros field.
  - reflexivity.
  - simpl Str.double_quotes. destruct (Ascii.eqb c Str.dquote) eqn:E.
    + apply Ascii.eqb_eq in E. subst c. simpl. rewrite IH.
      rewrite <- app_assoc. reflexivity.
    + simpl. rewrite E, IH. rewrite <- app_assoc. reflexivity.
Qed.

Lemma scan_field f row rows rest :
  csv_scan FieldStart [] row rows (csv_quote f ++ rest)
  = csv_scan QuoteSeen (rev (Str.chars f)) row rows rest.
Proof.
  unfold csv_quote. simpl. rewrite append_assoc. simpl.
  rewrite scan_quoted, app_nil_r. reflexivity.
Qed.

Lemma close_field_chars f row : close_field (rev (Str.chars f)) row = f :: row.
Proof.
  unfold close_field, Str.of_chars, Str.chars.
  rewrite rev_involutive, string_of_list_ascii_of_string. reflexivity.
Qed.

Lemma scan_comma field row rows rest :
  csv_scan QuoteSeen field row rows (String "," rest)
  = csv_scan FieldStart [] (close_field field row) rows rest.
Proof. reflexivity. Qed.

Lemma scan_newline st field row rows rest :
  st = QuoteSeen \/ st = Unquoted ->
  csv_scan st field row rows (newline ++ rest)
  = csv_scan FieldStart [] [] (close_record field row rows) rest.
Proof. intros [-> | ->]; reflexivity. Qed.

Lemma scan_end st field row rows :
  st = QuoteSeen \/ st = Unquoted ->
  csv_scan st field row rows EmptyString = rev (close_record field row rows).
Proof. intros [-> | ->]; reflexivity. Qed.

Lemma join_cons_nonempty sep p l :
  l <> [] -> Str.join sep (p :: l) = p ++ sep ++ Str.join sep l.
Proof. destruct l; [congruence | reflexivity]. Qed.

(** A line of quoted fields is read back field by field. *)
Lemma scan_fields init z row rows rest :
  csv_scan FieldStart [] row rows
    (Str.join "," (map csv_quote (init ++ [z])%list) ++ rest)
  = csv_scan QuoteSeen (rev (Str.chars z)) (rev init ++ row)%list rows rest.
Proof.
  revert row. induction init as [|f init IH]; intros row.
  - simpl. apply scan_field.
  - change (map csv_quote ((f :: init) ++ [z])%list)
      with (csv_quote f :: map csv_quote (init ++ [z])%list).
    rewrite join_cons_nonempty
      by (intros H; apply (f_equal (@length string)) in H;
          rewrite length_map, List.length_app in H; simpl in H; lia).
    rewrite !append_assoc, scan_field.
    change ("," ++ ?x) with (String "," x).
    rewrite scan_comma, close_field_chars, IH.
    simpl rev. rewrite <- app_assoc. reflexivity.
Qed.

Lemma scan_header rest :
  csv_scan FieldStart [] [] [] (Str.join "," csv_header ++ rest)
  = csv_scan Unquoted (rev (Str.chars "id")) ["source"; "confidence"; "size"; "time"]
      [] rest.
Proof. reflexivity. Qed.

Lemma csv_fields_snoc r :
  csv_fields r
  = ([e_time r; size_name (e_size r); NumStr.Number_toString (e_confidence r);
      e_source r] ++ [e_id r])%list.
Proof. reflexivity. Qed.

(** The rows that follow a finished field are read back one record each. *)
Lemma scan_tail rs st field row rows :
  st = QuoteSeen \/ st = Unquoted ->
  csv_scan st field row rows (csv_tail rs)
  = (rev rows ++ [rev (close_field field row)] ++ map csv_fields rs)%list.
Proof.
  revert st field row rows. induction rs as [|r rs IH]; intros st field row rows Hst.
  - simpl csv_tail. rewrite scan_end by exact Hst.
    unfold close_record. simpl. reflexivity.
  - change (csv_tail (r :: rs)) with (newline ++ csv_line r ++ csv_tail rs).
    rewrite scan_newline by exact Hst.
    unfold csv_line. rewrite csv_fields_snoc at 1. rewrite scan_fields.
    rewrite IH by (left; reflexivity).
    unfold close_record. rewrite close_field_chars, app_nil_r.
    simpl rev. rewrite <- !app_assoc. reflexivity.
Qed.

Lemma csv_parse_downloadCsv rows :
  csv_parse (downloadCsv rows) = csv_header :: map csv_fields rows.
Proof.
  unfold csv_parse. rewrite downloadCsv_lines, scan_header.
  rewrite scan_tail by (right; reflexivity). reflexivity.
Qed.

Lemma size_of_string_name s : size_of_string (size_name s) = Some s.
Proof. destruct s; reflexivity. Qed.

(** ** Ingestion *)

Lemma size_of_string_name_iff s z : size_of_string s = Some z <-> s = size_name z.
Proof.
  split.
  - unfold size_of_string.
    destruct (String.eqb_spec s "Small"); [intros [= <-]; assumption|].
    destruct (String.eqb_spec s "Medium"); [intros [= <-]; assumption|].
    destruct (String.eqb_spec s "Large"); [intros [= <-]; assumption|].
    destruct (String.eqb_spec s "XL"); [intros [= <-]; assumption|].
    discriminate.
  - intros ->. apply size_of_string_name.
Qed.

Lemma validate_rejects e idx s :
  converted_size e = Some s -> size_of_string s = None ->
  validate e idx = Some None.
Proof.
  unfold converted_size, validate. intros -> ->. reflexivity.
Qed.

Lemma validate_inv e idx ev :
  validate e idx = Some (Some ev) ->
  converted_size e = Some (size_name (e_size ev))
  /\ exists c, JS.ToNumber (JS.get e "confidence") = Some c
               /\ e_confidence ev = if isFinite c then c else default_confidence.
Proof.
  unfold validate, converted_size.
  destruct (JS.ToString (JS.or_else (JS.get e "size") (JS.VString ""))) as [s|];
    [|discriminate].
  destruct (size_of_string s) as [z|] eqn:Ez; [|discriminate].
  destruct (JS.ToString (JS.or_else (JS.get e "time") _)) as [time|]; [|discriminate].
  destruct (JS.ToNumber (JS.get e "confidence")) as [c|]; [|discriminate].
  destruct (JS.ToString (JS.or_else (JS.get e "source") _)) as [source|]; [|discriminate].
  destruct (JS.ToString (JS.or_else (JS.get e "id") _)) as [id|]; [|discriminate].
  match goal with |- context [match ?x with Some _ => _ | None => None end = _] =>
    destruct x as [ts|]; [|discriminate] end.
  intros [= <-]. simpl. split.
  - f_equal. apply size_of_string_name_iff, Ez.
  - exists c. split; reflexivity.
Qed.

Lemma validate_from_derived raw idx evs :
  validate_from idx raw = Some evs -> evs = derived idx raw.
Proof.
  revert idx evs. induction raw as [|e raw IH]; intros idx evs; simpl.
  - intros [= <-]. reflexivity.
  - destruct (validate e idx) as [r|]; [|discriminate].
    destruct (validate_from (S idx) raw) as [evs'|] eqn:E; [|discriminate].
    intros [= <-]. rewrite (IH _ _ E). destruct r; reflexivity.
Qed.

Lemma validate_from_total raw idx :
  (forall i e, raw !! i = Some e -> validate e (idx + i) <> None) ->
  validate_from idx raw = Some (derived idx raw).
Proof.
  revert idx. induction raw as [|e raw IH]; intros idx H; simpl.
  - reflexivity.
  - pose proof (H 0%nat e eq_refl) as H0. rewrite Nat.add_0_r in H0.
    destruct (validate e idx) as [r|]; [|congruence].
    rewrite IH.
    + destruct r; reflexivity.
    + intros i e' Hi. replace (S idx + i)%nat with (idx + S i)%nat by lia.
      apply H. exact Hi.
Qed.

Lemma In_derived raw idx ev :
  In ev (derived idx raw)
  <-> exists i e, raw !! i = Some e /\ validate e (idx + i) = Some (Some ev).
Proof.
  revert idx. induction raw as [|e raw IH]; intros idx; simpl.
  - split; [tauto | intros (i & e & H & _); discriminate].
  - split.
    + intros H.
      assert (validate e idx = Some (Some ev) \/ In ev (derived (S idx) raw)) as [H1|H1].
      { destruct (validate e idx) as [[ev'|]|]; auto.
        destruct H as [->|H]; auto. }
      * exists 0%nat, e. rewrite Nat.add_0_r. auto.
      * apply IH in H1 as (i & e' & Hi & Hv). exists (S i), e'.
        replace (idx + S i)%nat with (S idx + i)%nat by lia. auto.
    + intros ([|i] & e' & Hi & Hv).
      * injection Hi as <-. rewrite Nat.add_0_r in Hv. rewrite Hv. left; reflexivity.
      * assert (In ev (derived (S idx) raw)) as H1.
        { apply IH. exists i, e'. replace (S idx + i)%nat with (idx + S i)%nat by lia. auto. }
        destruct (validate e idx) as [[ev'|]|]; auto. right; exact H1.
Qed.

Lemma load_inv json evs :
  load (Body json) = Some evs ->
  evs <> [] /\ validate_from 0 (rawEvents_of json) = Some evs.
Proof.
  unfold load. destruct (validate_from 0 (rawEvents_of json)) as [[|ev l]|];
    try discriminate.
  intros [= <-]. split; [discriminate | reflexivity].
Qed.

Lemma baseEvents_loaded evs videoName :
  evs <> [] -> baseEvents true (Some evs) videoName = evs.
Proof. destruct evs; [congruence | reflexivity]. Qed.

(** ** The filters keep events of their input only *)

Lemma timeFilteredEvents_incl Date_parse completed from to range base ev :
  In ev (timeFilteredEvents Date_parse completed from to range base) -> In ev base.
Proof.
  unfold timeFilteredEvents.
  destruct (negb completed); [intros []|].
  destruct (supplied from || supplied to).
  - intros H. apply filter_In in H. tauto.
  - destruct range; auto; destruct base as [|b base]; auto;
      intros H; apply filter_In in H; tauto.
Qed.

Lemma filteredEvents_incl cmin sf events ev :
  In ev (filteredEvents cmin sf events) -> In ev events.
Proof.
  unfold filteredEvents. intros H.
  apply filter_In in H as [H _]. apply filter_In in H as [H _]. exact H.
Qed.

(** ** The synthetic events *)

Lemma rng_state_S t0 k :
  rng_state t0 (S k) = snd (mulberry32_call (rng_state t0 k)).
Proof. reflexivity. Qed.

Lemma synth_step_nth t0 i out :
  synth_step (rng_state t0 (2 * i), out) i
  = (rng_state t0 (2 * S i), (out ++ [nth_event t0 i])%list).
Proof.
  unfold synth_step, nth_event, draw.
  replace (2 * S i)%nat with (S (S (2 * i))) by lia.
  replace (2 * i + 1)%nat with (S (2 * i)) by lia.
  rewrite !rng_state_S.
  destruct (mulberry32_call (rng_state t0 (2 * i))) as [r t1]. cbn [fst snd].
  destruct (mulberry32_call t1) as [r' t2]. reflexivity.
Qed.

Lemma synth_fold t0 n :
  fold_left synth_step (seq 0 n) (t0, [])
  = (rng_state t0 (2 * n), map (nth_event t0) (seq 0 n)).
Proof.
  induction n as [|n IH].
  - reflexivity.
  - rewrite seq_S, fold_left_app, IH. cbn [fold_left Nat.add]. rewrite synth_step_nth.
    rewrite map_app. reflexivity.
Qed.

Lemma syntheticEvents_closed seedString :
  syntheticEvents seedString
  = map (nth_event (mulberry32 (seedFromString seedString))) (seq 0 totalEvents).
Proof. unfold syntheticEvents. rewrite synth_fold. reflexivity. Qed.

Lemma same_number_eq a b : NumStr.same_number a b = true -> a = b.
Proof.
  destruct a as [s|s| |s m e], b as [t|t| |t n f]; simpl; try discriminate; auto.
  - intros H. apply Bool.eqb_prop in H. congruence.
  - intros H. apply Bool.eqb_prop in H. congruence.
  - intros H. apply andb_true_iff in H as [H He]. apply andb_true_iff in H as [Hs Hm].
    apply Bool.eqb_prop in Hs. apply Pos.eqb_eq in Hm. apply Z.eqb_eq in He.
    congruence.
Qed.

(** The offsets of the 220 events, computed in floating point, are the
    exact integer quotients. *)
Lemma synthetic_offsets i :
  (i < totalEvents)%nat ->
  Math_floor (mul (div (of_Z (Z.of_nat i)) (of_Z (Z.of_nat totalEvents))) (of_Z 3600))
  = of_Z (Z.of_nat i * 3600 / 220).
Proof.
  intros Hi.
  assert (forallb (fun i =>
            NumStr.same_number
              (Math_floor (mul (div (of_Z (Z.of_nat i)) (of_Z (Z.of_nat totalEvents)))
                               (of_Z 3600)))
              (of_Z (Z.of_nat i * 3600 / 220))) (seq 0 totalEvents) = true) as H
    by (vm_compute; reflexivity).
  rewrite forallb_forall in H. apply same_number_eq, H, in_seq. lia.
Qed.

(** ** Malformed time strings *)


Lemma hmsToSeconds_wellformed time :
  malformed_time time = false ->
  exists h m s,
    map NumStr.StringToNumber (Str.split ":" time) = [h; m; s]
    /\ isFinite h = true /\ isFinite m = true /\ isFinite s = true
    /\ hmsToSeconds time
       = Math_max [zero; Math_floor (add (add (mul h (of_Z 3600)) (mul m (of_Z 60))) s)].
Proof.
  unfold malformed_time, hmsToSeconds.
  destruct (map NumStr.StringToNumber (Str.split ":" time)) as [|h [|m [|s [|x l]]]];
    try discriminate.
  destruct (isFinite h) eqn:Eh, (isFinite m) eqn:Em, (isFinite s) eqn:Es;
    simpl; intros H; try discriminate.
  exists h, m, s. rewrite Eh, Em, Es. repeat split; reflexivity.
Qed.


(** * The claims *)

(** C1. For every list of events and every bucket that [minuteData]
    produces from it, the bucket's total equals the sum of its four
    per-size counts. *)
Theorem minuteData_total_is_sum_of_counts (events : list DetectionEvent) :
  Forall (fun b => total b
                   = count_Small b + count_Medium b + count_Large b + count_XL b)
    (minuteData events).
Proof. exact (minuteData_balanced events). Qed.

(** C2, as stated, fails: an event built by [load] whose time string
    overflows to NaN survives the time filter and is counted in no bucket, so
    the sum of the 60 totals (0) is not the number of events (1). *)
Lemma nan_event_in_no_bucket :
  load (Body nan_feed) = Some [nan_event]
  /\ timeFilteredEvents Date_parse_utc true None None range_all [nan_event]
     = [nan_event]
  /\ length (minuteData [nan_event]) = 60%nat
  /\ sum_totals (minuteData [nan_event]) <> Z.of_nat (length [nan_event]).
Proof.
  split; [vm_compute; reflexivity|].
  split; [reflexivity|].
  split; [apply minuteData_length|].
  rewrite sum_totals_placed. vm_compute. discriminate.
Qed.

(** C2, amended. For every list of events [minuteData] produces exactly 60
    buckets, the bucket of index [i] labelled [toMinLabel i] and holding the
    number of events that fall in it (so 0 when there is none), and the sum
    of the 60 totals, which is also [totals.total], equals the number of
    events of the list whose time converts to a number other than NaN. *)
Theorem minuteData_sixty_buckets_count_placed_events (events : list DetectionEvent) :
  length (minuteData events) = 60%nat
  /\ (forall i, (i < 60)%nat ->
        exists b, minuteData events !! i = Some b
                  /\ minute b = toMinLabel i
                  /\ total b = count_where (in_bucket i) events)
  /\ minuteData [] = map empty_point (seq 0 60)
  /\ sum_totals (minuteData events) = Z.of_nat (length (placed events))
  /\ t_total (totals (minuteData events)) = Z.of_nat (length (placed events))
  /\ (forall e, In e (placed events) <-> In e events /\ isNaN (timeOffset e) = false).
Proof.
  split; [apply minuteData_length|].
  split.
  { intros i Hi.
    destruct (minuteData events !! i) as [b|] eqn:E.
    - exists b. destruct (minuteData_lookup events i b E) as (H1 & H2 & _). auto.
    - apply lookup_ge_None in E. rewrite minuteData_length in E.
      unfold mins in E. lia. }
  split; [reflexivity|].
  split; [apply sum_totals_placed|].
  split; [rewrite totals_total; apply sum_totals_placed|].
  intros e. unfold placed. rewrite filter_In, negb_true_iff. reflexivity.
Qed.

(** The scan of [peak10Min] on 60 buckets with totals that are not
    negative. *)
Lemma peak10Min_spec (series : list MinutePoint) :
  length series = 60%nat ->
  Forall (fun p => 0 <= total p) series ->
  exists bestStart : nat,
    (bestStart <= 50)%nat
    /\ count (peak10Min series) = window_total series bestStart
    /\ (forall i, (i <= 50)%nat -> window_total series i <= count (peak10Min series))
    /\ (forall i, (i < bestStart)%nat ->
          window_total series i < count (peak10Min series))
    /\ start (peak10Min series) = toMinLabel bestStart
    /\ end_ (peak10Min series) = toMinLabel (bestStart + 9).
Proof.
  intros Hlen Hpos.
  pose proof (scanned_fold series 51) as [Hle Hst].
  assert (peak_scan series = fold_left (peak_step series) (seq 0 51) (0, 0%nat)) as E.
  { rewrite peak_scan_fold, Hlen. reflexivity. }
  unfold peak10Min. rewrite E.
  destruct (fold_left (peak_step series) (seq 0 51) (0, 0%nat)) as [best bs].
  simpl in Hle, Hst. exists bs. simpl count. simpl start. simpl end_.
  assert (forall i, (i <= 50)%nat -> window_total series i <= best) as Hmax.
  { intros i Hi. rewrite <- window_sum_total. apply Hle. lia. }
  destruct Hst as [[-> ->]|(Hp & Hk & Hw & Hf)].
  - split; [lia|]. split.
    + pose proof (Hmax 0%nat ltac:(lia)) as H0.
      pose proof (window_sum_nonneg series 0 Hpos) as H1.
      rewrite window_sum_total in H1. lia.
    + split; [exact Hmax|]. split; [intros i Hi; lia|]. split; reflexivity.
  - split; [lia|]. split; [rewrite <- window_sum_total; lia|].
    split; [exact Hmax|]. split; [|split; reflexivity].
    intros i Hi. rewrite <- window_sum_total. apply Hf, Hi.
Qed.

(** C3. For every series of 60 buckets whose totals are counts (not
    negative), the count that [peak10Min] returns is the largest sum of ten
    consecutive totals over the start indices 0..50, its start label is that
    of the lowest start index reaching this sum, and its end label that of
    the start index plus 9. *)
Theorem peak10Min_first_busiest_window (series : list MinutePoint) :
  length series = 60%nat ->
  Forall (fun p => 0 <= total p) series ->
  exists bestStart : nat,
    (bestStart <= 50)%nat
    /\ count (peak10Min series) = window_total series bestStart
    /\ (forall i, (i <= 50)%nat -> window_total series i <= count (peak10Min series))
    /\ (forall i, (i < bestStart)%nat ->
          window_total series i < count (peak10Min series))
    /\ start (peak10Min series) = toMinLabel bestStart
    /\ end_ (peak10Min series) = toMinLabel (bestStart + 9).
Proof. exact (peak10Min_spec series). Qed.

(** The series of the specification's example: the window that starts at
    index 1 (sum 145) beats the one at index 0 (sum 50). *)
Lemma peak10Min_first_busiest_window_witness :
  exists bestStart : nat,
    (bestStart <= 50)%nat
    /\ count (peak10Min busy_series) = window_total busy_series bestStart
    /\ (forall i, (i <= 50)%nat ->
          window_total busy_series i <= count (peak10Min busy_series))
    /\ (forall i, (i < bestStart)%nat ->
          window_total busy_series i < count (peak10Min busy_series))
    /\ start (peak10Min busy_series) = toMinLabel bestStart
    /\ end_ (peak10Min busy_series) = toMinLabel (bestStart + 9).
Proof.
  apply (peak10Min_first_busiest_window busy_series).
  - reflexivity.
  - unfold busy_series, series_of. apply Forall_map.
    repeat (constructor; [simpl; lia|]). constructor.
Defined.

(** On the specification's example the reported window is the one at index
    1, with count 145. *)
Example peak10Min_busy_series :
  peak10Min busy_series = {| count := 145; start := "00:01"; end_ := "00:10" |}.
Proof. vm_compute. reflexivity. Qed.

(** Every series that the aggregation produces satisfies the two
    hypotheses of C3. *)
Corollary peak10Min_of_minuteData (events : list DetectionEvent) :
  exists bestStart : nat,
    (bestStart <= 50)%nat
    /\ count (peak10Min (minuteData events))
       = window_total (minuteData events) bestStart
    /\ (forall i, (i <= 50)%nat ->
          window_total (minuteData events) i <= count (peak10Min (minuteData events)))
    /\ (forall i, (i < bestStart)%nat ->
          window_total (minuteData events) i < count (peak10Min (minuteData events)))
    /\ start (peak10Min (minuteData events)) = toMinLabel bestStart
    /\ end_ (peak10Min (minuteData events)) = toMinLabel (bestStart + 9).
Proof.
  apply peak10Min_spec;
    [apply minuteData_length | apply minuteData_nonneg].
Qed.

Section TimeRangeProperties.

Variable Date_parse : string -> number.

Lemma relative_mode_filter from to range base :
  supplied from = false -> supplied to = false ->
  range <> range_all -> base <> [] ->
  timeFilteredEvents Date_parse true from to range base
  = List.filter (fun e => in_window range base (timeOffset e)) base.
Proof.
  intros Hf Ht Hr Hb. unfold timeFilteredEvents. rewrite Hf, Ht. simpl.
  destruct base as [|b base]; [congruence|].
  assert (Math_max (zero :: map (fun e => hmsToSeconds (e_time e)) (b :: base))
          = maxOffset (b :: base)) as HM.
  { unfold maxOffset. simpl map. apply Math_max_offsets, hmsToSeconds_range. }
  destruct range; try congruence; rewrite HM; reflexivity.
Qed.

Lemma maxOffset_spec base :
  base <> [] ->
  Forall (fun e => isNaN (timeOffset e) = false) base ->
  (exists e, In e base /\ timeOffset e = maxOffset base)
  /\ forall e, In e base -> le (timeOffset e) (maxOffset base) = true.
Proof.
  intros Hb Hn. destruct base as [|b base]; [congruence|].
  assert (Forall offset_like (map timeOffset (b :: base))) as Ho.
  { apply Forall_map, List.Forall_forall. intros e _. apply hmsToSeconds_range. }
  assert (Forall (fun x => isNaN x = false) (map timeOffset (b :: base))) as Hn'.
  { apply Forall_map. exact Hn. }
  destruct (Math_max_offsets_spec (timeOffset b) (map timeOffset base) Ho Hn')
    as (_ & Hin & Hall).
  change (In (maxOffset (b :: base)) (map timeOffset (b :: base))) in Hin.
  change (Forall (fun x => le x (maxOffset (b :: base)) = true)
            (map timeOffset (b :: base))) in Hall.
  split.
  - apply in_map_iff in Hin as (e & He & Hin). exists e. split; [exact Hin|].
    exact He.
  - intros e He. rewrite List.Forall_forall in Hall. apply Hall.
    apply in_map. exact He.
Qed.

Lemma maxOffset_nan base :
  Exists (fun e => isNaN (timeOffset e) = true) base -> maxOffset base = NaN.
Proof.
  intros H. unfold maxOffset, Math_max. apply fold_max_with_nan.
  apply List.Exists_exists in H as (e & He & Hn). apply List.Exists_exists.
  exists (timeOffset e). split; [apply in_map, He | exact Hn].
Qed.

Lemma all_mode_identity from to base :
  supplied from = false -> supplied to = false ->
  timeFilteredEvents Date_parse true from to range_all base = base.
Proof. intros Hf Ht. unfold timeFilteredEvents. rewrite Hf, Ht. reflexivity. Qed.

Lemma parseDateTimeMs_finite v ms :
  parseDateTimeMs Date_parse v = Some ms -> isNaN ms = false.
Proof.
  unfold parseDateTimeMs. destruct v as [s|]; [|discriminate].
  destruct (Date_parse s); simpl; intros [= <-]; reflexivity.
Qed.

Lemma in_datetime_range_bounds from to e :
  in_datetime_range Date_parse (parseDateTimeMs Date_parse from)
    (parseDateTimeMs Date_parse to) e
  = within_bounds Date_parse from to e.
Proof.
  unfold in_datetime_range, within_bounds.
  destruct (parseDateTimeMs Date_parse (e_timestamp e)) as [ms|] eqn:Ems;
    [|reflexivity].
  pose proof (parseDateTimeMs_finite _ _ Ems) as Hms.
  destruct (parseDateTimeMs Date_parse from) as [f|] eqn:Ef.
  - rewrite (lt_negb_ge ms f Hms (parseDateTimeMs_finite _ _ Ef)).
    destruct (ge ms f); simpl; [|reflexivity].
    destruct (parseDateTimeMs Date_parse to) as [t|] eqn:Et; [|reflexivity].
    rewrite (gt_negb_le ms t Hms (parseDateTimeMs_finite _ _ Et)).
    destruct (le ms t); reflexivity.
  - simpl.
    destruct (parseDateTimeMs Date_parse to) as [t|] eqn:Et; [|reflexivity].
    rewrite (gt_negb_le ms t Hms (parseDateTimeMs_finite _ _ Et)).
    destruct (le ms t); reflexivity.
Qed.

Lemma absolute_mode_filter from to range base :
  supplied from || supplied to = true ->
  timeFilteredEvents Date_parse true from to range base
  = List.filter (within_bounds Date_parse from to) base.
Proof.
  intros H. unfold timeFilteredEvents. rewrite H. simpl.
  apply List.filter_ext. intros e. apply in_datetime_range_bounds.
Qed.

(** C4. In the relative mode (no absolute bound supplied) with a window of
    5, 10, 30 or 60 minutes and a non-empty list, the events retained are, in
    their order, exactly those whose offset lies between
    [max(0, maxOffset - 60 * minutes)] and [maxOffset] inclusive, where
    [maxOffset] is the maximum of the offsets of the list: it is the offset
    of an event of the list and no offset is above it (when an offset is NaN
    so is the maximum, and no event lies in the window).  With the selector
    of all events the list is returned unchanged. *)
Theorem relative_window_keeps_trailing_events
    (dateTimeFrom dateTimeTo : option string) (timeRange : TimeRangeKey)
    (base : list DetectionEvent) :
  supplied dateTimeFrom = false -> supplied dateTimeTo = false ->
  timeRange <> range_all -> base <> [] ->
  timeFilteredEvents Date_parse true dateTimeFrom dateTimeTo timeRange base
  = List.filter
      (fun e => ge (timeOffset e)
                  (Math_max [zero; sub (maxOffset base)
                                       (of_Z (60 * minutes_of timeRange))])
                && le (timeOffset e) (maxOffset base))
      base
  /\ In (minutes_of timeRange) [5; 10; 30; 60]
  /\ (Forall (fun e => isNaN (timeOffset e) = false) base ->
      (exists e, In e base /\ timeOffset e = maxOffset base)
      /\ forall e, In e base -> le (timeOffset e) (maxOffset base) = true)
  /\ (Exists (fun e => isNaN (timeOffset e) = true) base ->
      maxOffset base = NaN
      /\ timeFilteredEvents Date_parse true dateTimeFrom dateTimeTo timeRange base = [])
  /\ timeFilteredEvents Date_parse true dateTimeFrom dateTimeTo range_all base = base.
Proof.
  intros Hf Ht Hr Hb.
  split; [apply (relative_mode_filter _ _ _ _ Hf Ht Hr Hb)|].
  split; [destruct timeRange; simpl; tauto|].
  split; [apply maxOffset_spec, Hb|].
  split; [|apply all_mode_identity; assumption].
  intros Hn. split; [apply maxOffset_nan, Hn|].
  rewrite (relative_mode_filter _ _ _ _ Hf Ht Hr Hb).
  unfold in_window. rewrite (maxOffset_nan _ Hn).
  generalize (minOffset timeRange base) as lo. clear. intros lo.
  induction base as [|b base IH]; [reflexivity|]. simpl.
  replace (le (timeOffset b) NaN) with false
    by (unfold le; destruct (timeOffset b) as [[]|[]| |[]]; reflexivity).
  rewrite andb_false_r. exact IH.
Qed.

(** C5. In the absolute mode (a from- or a to-bound supplied, that is a
    non-empty string) an event is retained exactly when its timestamp parses
    and is at or after the from-bound, when that bound parses, and at or
    before the to-bound, when that bound parses; so an event without a
    timestamp that parses is never retained, a bound that is missing or does
    not parse constrains nothing, and the relative selector plays no part. *)
Theorem absolute_window_filters_by_timestamp
    (dateTimeFrom dateTimeTo : option string) (timeRange : TimeRangeKey)
    (base : list DetectionEvent) :
  supplied dateTimeFrom || supplied dateTimeTo = true ->
  timeFilteredEvents Date_parse true dateTimeFrom dateTimeTo timeRange base
  = List.filter
      (fun e =>
         match parseDateTimeMs Date_parse (e_timestamp e) with
         | None => false
         | Some ms =>
             match parseDateTimeMs Date_parse dateTimeFrom with
             | Some f => ge ms f
             | None => true
             end
             && match parseDateTimeMs Date_parse dateTimeTo with
                | Some t => le ms t
                | None => true
                end
         end)
      base
  /\ (forall e, parseDateTimeMs Date_parse (e_timestamp e) = None ->
        ~ In e (timeFilteredEvents Date_parse true dateTimeFrom dateTimeTo
                  timeRange base))
  /\ (forall e ms,
        In e base -> parseDateTimeMs Date_parse (e_timestamp e) = Some ms ->
        (In e (timeFilteredEvents Date_parse true dateTimeFrom dateTimeTo
                 timeRange base)
         <-> (forall f, parseDateTimeMs Date_parse dateTimeFrom = Some f ->
                        ge ms f = true)
             /\ (forall t, parseDateTimeMs Date_parse dateTimeTo = Some t ->
                           le ms t = true))).
Proof.
  intros H. rewrite (absolute_mode_filter _ _ _ _ H).
  split; [reflexivity|]. split.
  - intros e He Hin. apply filter_In in Hin as [_ Hin].
    unfold within_bounds in Hin. rewrite He in Hin. discriminate.
  - intros e ms Hin Hms. rewrite filter_In. unfold within_bounds. rewrite Hms.
    destruct (parseDateTimeMs Date_parse dateTimeFrom) as [f|],
             (parseDateTimeMs Date_parse dateTimeTo) as [t|];
      rewrite ?andb_true_iff; split.
    + intros [_ [H1 H2]]. split; intros ? [= <-]; assumption.
    + intros [H1 H2]. split; [exact Hin|]. split; [apply H1 | apply H2]; reflexivity.
    + intros [_ [H1 _]]. split; [intros ? [= <-]; assumption | discriminate].
    + intros [H1 _]. split; [exact Hin|]. split; [apply H1|]; reflexivity.
    + intros [_ [_ H2]]. split; [discriminate | intros ? [= <-]; assumption].
    + intros [_ H2]. split; [exact Hin|]. split; [|apply H2]; reflexivity.
    + intros _. split; discriminate.
    + intros _. split; [exact Hin|]. split; reflexivity.
Qed.




End TimeRangeProperties.

(** The window of ten minutes over events at 00:00:00, 00:49:00 and
    00:59:00 keeps the last two. *)
Lemma relative_window_keeps_trailing_events_witness :
  timeFilteredEvents Date_parse_utc true None None range_10m
    [event_at "00:00:00"; event_at "00:49:00"; event_at "00:59:00"]
  = [event_at "00:49:00"; event_at "00:59:00"].
Proof.
  destruct (relative_window_keeps_trailing_events Date_parse_utc None None range_10m
              [event_at "00:00:00"; event_at "00:49:00"; event_at "00:59:00"])
    as [H _]; [reflexivity | reflexivity | discriminate | discriminate |].
  rewrite H. vm_compute. reflexivity.
Defined.

(** The example of the specification: of three events, with timestamps
    10:00, 10:05 and none, the bounds 10:01 to 10:10 keep the second. *)
Lemma absolute_window_filters_by_timestamp_witness :
  timeFilteredEvents Date_parse_utc true
    (Some "2024-01-01T10:01:00Z") (Some "2024-01-01T10:10:00Z") range_all
    [stamped "00:00:00" (Some "2024-01-01T10:00:00Z");
     stamped "00:01:00" (Some "2024-01-01T10:05:00Z");
     stamped "00:02:00" None]
  = [stamped "00:01:00" (Some "2024-01-01T10:05:00Z")].
Proof.
  destruct (absolute_window_filters_by_timestamp Date_parse_utc
              (Some "2024-01-01T10:01:00Z") (Some "2024-01-01T10:10:00Z") range_all
              [stamped "00:00:00" (Some "2024-01-01T10:00:00Z");
               stamped "00:01:00" (Some "2024-01-01T10:05:00Z");
               stamped "00:02:00" None])
    as [H _]; [reflexivity|].
  rewrite H. vm_compute. reflexivity.
Defined.


(** ** Which records the callback of [load] keeps *)

Lemma size_is_valid_iff e :
  size_is_valid e = true <-> exists z, converted_size e = Some (size_name z).
Proof.
  unfold size_is_valid. destruct (converted_size e) as [s|].
  - split.
    + intros H. apply existsb_exists in H as (n & Hin & Hn).
      apply String.eqb_eq in Hn. subst n.
      apply in_map_iff in Hin as (z & Hz & _). exists z. congruence.
    + intros (z & [= ->]). apply existsb_exists. exists (size_name z).
      split; [|apply String.eqb_refl].
      apply in_map. destruct z; simpl; tauto.
  - split; [discriminate | intros (z & H); discriminate].
Qed.

Lemma validate_null_inv e idx :
  validate e idx = Some None ->
  exists s, converted_size e = Some s /\ size_of_string s = None.
Proof.
  unfold validate, converted_size.
  destruct (JS.ToString (JS.or_else (JS.get e "size") (JS.VString ""))) as [s|];
    [|discriminate].
  destruct (size_of_string s) as [z|] eqn:Ez; [|eauto].
  destruct (JS.ToString (JS.or_else (JS.get e "time") _)) as [time|]; [|discriminate].
  destruct (JS.ToNumber (JS.get e "confidence")) as [c|]; [|discriminate].
  destruct (JS.ToString (JS.or_else (JS.get e "source") _)) as [source|]; [|discriminate].
  destruct (JS.ToString (JS.or_else (JS.get e "id") _)) as [id|]; [|discriminate].
  match goal with |- context [match ?x with Some _ => _ | None => None end = _] =>
    destruct x as [ts|]; discriminate end.
Qed.

Lemma validate_valid_size e idx z :
  converted_size e = Some (size_name z) ->
  validate e idx <> Some None
  /\ forall ev, validate e idx = Some (Some ev) -> e_size ev = z.
Proof.
  intros Hc. split.
  - intros H. apply validate_null_inv in H as (s & Hs & Hn).
    rewrite Hc in Hs. injection Hs as <-.
    rewrite size_of_string_name in Hn. discriminate.
  - intros ev H. apply validate_inv in H as [H _].
    rewrite Hc in H. injection H as H.
    destruct z, (e_size ev); simpl in H; congruence.
Qed.

Lemma validate_kept_iff e idx r :
  validate e idx = Some r ->
  size_is_valid e = match r with Some _ => true | None => false end.
Proof.
  intros H. destruct r as [ev|].
  - apply size_is_valid_iff. exists (e_size ev). apply (validate_inv _ _ _ H).
  - destruct (size_is_valid e) eqn:E; [|reflexivity].
    apply size_is_valid_iff in E as (z & Hz).
    destruct (validate_valid_size e idx z Hz) as [Hn _]. contradiction.
Qed.

Lemma validate_from_throws raw idx i e :
  raw !! i = Some e -> validate e (idx + i) = None ->
  validate_from idx raw = None.
Proof.
  revert idx i. induction raw as [|e' raw IH]; intros idx i Hi Hv; [discriminate|].
  simpl. destruct i as [|i].
  - injection Hi as ->. rewrite Nat.add_0_r in Hv. rewrite Hv. reflexivity.
  - destruct (validate e' idx); [|reflexivity].
    rewrite (IH (S idx) i Hi); [reflexivity|].
    replace (S idx + i)%nat with (idx + S i)%nat by lia. exact Hv.
Qed.

Lemma validate_from_kept raw idx evs :
  validate_from idx raw = Some evs ->
  Forall2 (fun ie ev => validate (snd ie) (fst ie) = Some (Some ev))
    (List.filter (fun ie => size_is_valid (snd ie))
       (combine (seq idx (length raw)) raw))
    evs.
Proof.
  revert idx evs. induction raw as [|e raw IH]; intros idx evs; simpl.
  - intros [= <-]. constructor.
  - destruct (validate e idx) as [r|] eqn:Ev; [|discriminate].
    destruct (validate_from (S idx) raw) as [evs'|] eqn:E; [|discriminate].
    intros [= <-]. rewrite (validate_kept_iff _ _ _ Ev).
    specialize (IH _ _ E). destruct r as [ev|]; [|exact IH].
    constructor; [exact Ev | exact IH].
Qed.

Section PipelineProperties.

Variable Date_parse : string -> number.

(** C6, as stated, fails: the size of [array_size_record] is an array, not
    one of the four strings, yet [String] converts it to the string Small and
    [load] keeps the record. *)
Lemma array_size_is_kept :
  (forall z, JS.get array_size_record "size" <> JS.VString (size_name z))
  /\ load (Body (JS.VObject [("events", JS.VArray [array_size_record])]))
     = Some [{| e_id := "EVT-0001"; e_time := "00:00:00"; e_size := Small;
                e_confidence := default_confidence;
                e_source := "Cutting Table 1"; e_timestamp := None |}].
Proof.
  split; [intros z; discriminate | vm_compute; reflexivity].
Qed.

(** C6, amended. A record whose size, converted with [String], is not
    exactly one of the four strings gives no event: the callback of [load]
    returns [null] for it, wherever it stands and whatever the other records
    are.  A record whose converted size is one of the four strings is never
    answered with [null]: the callback gives an event of that size (or a
    conversion throws).  When [load] accepts the feed (no conversion throws
    and some record is kept) its result is exactly the events of the records
    whose converted size is one of the four strings, one event for each, in
    order, so the other records are still processed; and every event of the
    time-filtered list, of the buckets' counts, of the displayed list and of
    the rows of the export is an event of such a record. *)
Theorem invalid_size_records_are_dropped (json : JS.value)
    (evs : list DetectionEvent) :
  (forall e idx s, converted_size e = Some s ->
                   (forall z, s <> size_name z) ->
                   validate e idx = Some None)
  /\ (forall e idx z, converted_size e = Some (size_name z) ->
        validate e idx <> Some None
        /\ forall ev, validate e idx = Some (Some ev) -> e_size ev = z)
  /\ (load (Body json) = Some evs ->
      Forall2 (fun ie ev => validate (snd ie) (fst ie) = Some (Some ev)
                            /\ converted_size (snd ie)
                               = Some (size_name (e_size ev)))
        (valid_records (rawEvents_of json)) evs
      /\ length evs = length (valid_records (rawEvents_of json))
      /\ (forall i e z, rawEvents_of json !! i = Some e ->
            converted_size e = Some (size_name z) ->
            exists ev, validate e i = Some (Some ev) /\ e_size ev = z
                       /\ In ev evs)
      /\ (forall i e s, rawEvents_of json !! i = Some e ->
            converted_size e = Some s ->
            (forall z, s <> size_name z) ->
            validate e i = Some None
            /\ forall ev, In ev evs -> validate e i <> Some (Some ev))
      /\ evs = derived 0 (rawEvents_of json)
      /\ (forall ev, In ev evs <->
            exists i e, rawEvents_of json !! i = Some e
                        /\ validate e i = Some (Some ev))
      /\ (forall i e ev, rawEvents_of json !! i = Some e ->
                         validate e i = Some (Some ev) ->
                         converted_size e = Some (size_name (e_size ev)))
      /\ forall videoName dateTimeFrom dateTimeTo timeRange eventConfidenceMin
                eventSizeFilter,
           let base := baseEvents true (Some evs) videoName in
           let events := timeFilteredEvents Date_parse true dateTimeFrom dateTimeTo
                           timeRange base in
           let shown := filteredEvents eventConfidenceMin eventSizeFilter events in
           base = evs
           /\ (forall ev, In ev events -> In ev evs)
           /\ (forall i b, minuteData events !! i = Some b ->
                 total b = count_where (in_bucket i) events)
           /\ (forall ev, In ev shown -> In ev evs)
           /\ csv_parse (downloadCsv shown) = csv_header :: map csv_fields shown).
Proof.
  assert (forall e idx s, converted_size e = Some s ->
                          (forall z, s <> size_name z) ->
                          validate e idx = Some None) as Hrej.
  { intros e idx s Hs Hz. apply (validate_rejects e idx s Hs).
    destruct (size_of_string s) as [z|] eqn:E; [|reflexivity].
    apply size_of_string_name_iff in E. destruct (Hz z E). }
  split; [exact Hrej|]. split; [apply validate_valid_size|].
  intros Hl. destruct (load_inv _ _ Hl) as [Hne Hv].
  pose proof (validate_from_derived _ _ _ Hv) as Hd.
  pose proof (validate_from_kept _ _ _ Hv) as Hk.
  fold (indexed (rawEvents_of json)) in Hk. fold (valid_records (rawEvents_of json)) in Hk.
  assert (forall ev, In ev evs <->
            exists i e, rawEvents_of json !! i = Some e
                        /\ validate e i = Some (Some ev)) as Hin
    by (rewrite Hd; apply In_derived).
  split.
  { eapply Forall2_impl; [exact Hk|]. intros [i e] ev H. simpl in *.
    split; [exact H | apply (validate_inv _ _ _ H)]. }
  split; [symmetry; apply (Forall2_length _ _ _ Hk)|].
  split.
  { intros i e z Hi Hz.
    destruct (validate_valid_size e i z Hz) as [Hnn Hsz].
    destruct (validate e i) as [[ev|]|] eqn:Ev.
    - exists ev. split; [reflexivity|]. split; [apply Hsz; reflexivity|].
      apply Hin. exists i, e. auto.
    - contradiction.
    - exfalso.
      assert (validate_from 0 (rawEvents_of json) = None) as C
        by (apply (validate_from_throws _ 0%nat i e Hi); exact Ev).
      congruence. }
  split.
  { intros i e s Hi Hs Hz. pose proof (Hrej e i s Hs Hz) as Hr.
    split; [exact Hr|]. intros ev _ C. congruence. }
  split; [exact Hd|]. split; [exact Hin|].
  split; [intros i e ev _ H; apply (validate_inv _ _ _ H)|].
  intros videoName from to range cmin sf base events shown.
  assert (base = evs) as Hb by (apply baseEvents_loaded, Hne).
  split; [exact Hb|]. split.
  { intros ev H. rewrite <- Hb. eapply timeFilteredEvents_incl, H. }
  split.
  { intros i b H. apply (minuteData_lookup _ _ _ H). }
  split.
  { intros ev H. rewrite <- Hb.
    eapply timeFilteredEvents_incl, filteredEvents_incl, H. }
  apply csv_parse_downloadCsv.
Qed.

(** C7, as stated, fails: the confidence [null] is not a finite number, yet
    [Number] converts it to 0 and the event keeps 0, not 0.9. *)
Lemma null_confidence_becomes_zero :
  JS.get null_confidence_record "confidence" = JS.VNull
  /\ validate null_confidence_record 0
     = Some (Some {| e_id := "EVT-0001"; e_time := "00:00:00"; e_size := Small;
                     e_confidence := zero;
                     e_source := "Cutting Table 1"; e_timestamp := None |})
  /\ num_eq zero default_confidence = false.
Proof. repeat split; vm_compute; reflexivity. Qed.

(** C7, amended. For every record that [load] turns into an event, the
    confidence of the event is [Number] of the record's confidence when that
    number is finite, and 0.9 otherwise.  So it is the record's own value when
    that is a finite number, and 0.9 when the field is missing or is a number
    that is not finite; no other default exists, but a field that is not a
    number is converted first ([null] to 0, a numeric string to its value)
    and yields 0.9 only if the conversion is not finite. *)
Theorem confidence_is_converted_or_defaulted (e : JS.value) (idx : nat)
    (ev : DetectionEvent) :
  validate e idx = Some (Some ev) ->
  (exists c, JS.ToNumber (JS.get e "confidence") = Some c
             /\ e_confidence ev = if isFinite c then c else of_decimal false 9 (-1))
  /\ (forall n, JS.get e "confidence" = JS.VNumber n -> isFinite n = true ->
                e_confidence ev = n)
  /\ (forall n, JS.get e "confidence" = JS.VNumber n -> isFinite n = false ->
                e_confidence ev = of_decimal false 9 (-1))
  /\ (JS.get e "confidence" = JS.VUndefined ->
      e_confidence ev = of_decimal false 9 (-1))
  /\ (forall s, JS.get e "confidence" = JS.VString s ->
                e_confidence ev
                = if isFinite (NumStr.StringToNumber s) then NumStr.StringToNumber s
                  else of_decimal false 9 (-1))
  /\ (JS.get e "confidence" = JS.VNull -> e_confidence ev = zero).
Proof.
  intros H. destruct (validate_inv _ _ _ H) as (_ & c & Hc & Hv).
  split; [exists c; auto|].
  split; [intros n Hn Hf; rewrite Hn in Hc; injection Hc as <-;
          rewrite Hv, Hf; reflexivity|].
  split; [intros n Hn Hf; rewrite Hn in Hc; injection Hc as <-;
          rewrite Hv, Hf; reflexivity|].
  split; [intros Hn; rewrite Hn in Hc; injection Hc as <-; rewrite Hv; reflexivity|].
  split; [intros s Hn; rewrite Hn in Hc; injection Hc as <-; rewrite Hv; reflexivity|].
  intros Hn; rewrite Hn in Hc; injection Hc as <-; rewrite Hv; reflexivity.
Qed.

End PipelineProperties.

(** Of the three records of [mixed_feed] the second alone is kept. *)
Lemma invalid_size_records_are_dropped_witness :
  derived 0 (rawEvents_of mixed_feed)
  = [{| e_id := "EVT-0002"; e_time := "00:07:30"; e_size := XL;
        e_confidence := of_decimal false 8 (-1);
        e_source := "Cutting Table 1"; e_timestamp := None |}]
  /\ length (valid_records (rawEvents_of mixed_feed)) = 1%nat.
Proof.
  destruct (invalid_size_records_are_dropped Date_parse_utc mixed_feed
              [{| e_id := "EVT-0002"; e_time := "00:07:30"; e_size := XL;
                  e_confidence := of_decimal false 8 (-1);
                  e_source := "Cutting Table 1"; e_timestamp := None |}])
    as (_ & _ & H).
  destruct H as (_ & Hlen & _ & _ & Hd & _); [vm_compute; reflexivity|].
  split; [symmetry; exact Hd | symmetry; exact Hlen].
Defined.

(** The valid record of [mixed_feed] keeps its confidence 0.8. *)
Lemma confidence_is_converted_or_defaulted_witness :
  exists c,
    JS.ToNumber (JS.get (JS.VObject [("size", JS.VString "XL");
                                     ("confidence", JS.VNumber (of_decimal false 8 (-1)))])
                   "confidence") = Some c
    /\ of_decimal false 8 (-1) = if isFinite c then c else of_decimal false 9 (-1).
Proof.
  destruct (confidence_is_converted_or_defaulted
              (JS.VObject [("size", JS.VString "XL");
                           ("confidence", JS.VNumber (of_decimal false 8 (-1)))])
              5
              {| e_id := "EVT-0006"; e_time := "00:00:00"; e_size := XL;
                 e_confidence := of_decimal false 8 (-1);
                 e_source := "Cutting Table 1"; e_timestamp := None |})
    as [H _]; [vm_compute; reflexivity|].
  exact H.
Defined.

(** C8. The synthetic list is a function of the seed string alone: two
    video names with the same seed string give identical lists.  For every
    seed string the list has 220 events, and the event of index [i] has the
    identifier of position [i + 1], the time of offset
    [floor(i / 220 * 3600)] seconds (the exact integer quotient), the size
    picked from draw [2i] of the generator seeded with the hash of the
    string, and the confidence computed from draw [2i + 1]. *)
Theorem synthetic_events_depend_on_seed_only (videoName1 videoName2 : string) :
  seed_string videoName1 = seed_string videoName2 ->
  baseEvents true None videoName1 = baseEvents true None videoName2
  /\ baseEvents true None videoName1 = syntheticEvents (seed_string videoName1)
  /\ forall seedString,
       let t0 := mulberry32 (seedFromString seedString) in
       length (syntheticEvents seedString) = 220%nat
       /\ forall i, (i < 220)%nat ->
            exists ev, syntheticEvents seedString !! i = Some ev
              /\ ev = nth_event t0 i
              /\ e_id ev = "EVT-" ++ Str.padStart0 4 (Str.of_int (Z.of_nat i + 1))
              /\ e_time ev = toHms (of_Z (Z.of_nat i * 3600 / 220))
              /\ e_size ev = pick_size (draw t0 (2 * i)) zero [0; 1; 2; 3]%nat
              /\ e_confidence ev
                 = div (Math_round
                          (mul (clamp (add (of_decimal false 72 (-2))
                                           (mul (draw t0 (2 * i + 1))
                                                (of_decimal false 27 (-2))))
                                      zero (of_Z 1))
                               (of_Z 1000)))
                       (of_Z 1000).
Proof.
  intros Hs. split; [unfold baseEvents; simpl; rewrite Hs; reflexivity|].
  split; [reflexivity|].
  intros seedString t0. rewrite syntheticEvents_closed. fold t0.
  split; [rewrite length_map, length_seq; reflexivity|].
  intros i Hi. exists (nth_event t0 i). split.
  { rewrite lookup_map, lookup_seq_lt by (unfold totalEvents; lia). reflexivity. }
  split; [reflexivity|]. split; [reflexivity|]. split.
  { unfold nth_event. simpl e_time. rewrite synthetic_offsets by (unfold totalEvents; lia).
    reflexivity. }
  split; reflexivity.
Qed.

(** An empty video name and the name [demo] have the same seed string. *)
Lemma synthetic_events_depend_on_seed_only_witness :
  baseEvents true None "" = baseEvents true None "demo".
Proof.
  destruct (synthetic_events_depend_on_seed_only "" "demo") as [H _];
    [reflexivity|].
  exact H.
Defined.

(** The quoted form of the specification's example. *)
Example csv_quote_doubles_quotes :
  csv_quote ("He said " ++ String Str.dquote ("rush" ++ String Str.dquote ""))
  = String Str.dquote
      ("He said " ++ String Str.dquote (String Str.dquote
         ("rush" ++ String Str.dquote (String Str.dquote
            (String Str.dquote ""))))).
Proof. reflexivity. Qed.

(** * Further properties of the code *)

(** ** The aggregation as a count *)

Lemma count_where_app f l1 l2 :
  count_where f (l1 ++ l2)%list = count_where f l1 + count_where f l2.
Proof.
  unfold count_where. rewrite List.filter_app, List.length_app. lia.
Qed.

Lemma count_where_perm f l l' :
  Permutation l l' -> count_where f l = count_where f l'.
Proof.
  unfold count_where. induction 1 as [|x l l' _ IH|x y l|l l' l'' _ IH1 _ IH2]; simpl.
  - reflexivity.
  - destruct (f x); simpl; lia.
  - destruct (f x), (f y); simpl; lia.
  - lia.
Qed.

Lemma count_where_nonneg f l : 0 <= count_where f l.
Proof. unfold count_where. lia. Qed.

Lemma count_where_le f g l :
  (forall e, f e = true -> g e = true) -> count_where f l <= count_where g l.
Proof.
  intros H. unfold count_where. induction l as [|x l IH]; simpl; [lia|].
  destruct (f x) eqn:E.
  - rewrite (H x E). simpl. lia.
  - destruct (g x); simpl; lia.
Qed.

Lemma MinutePoint_eq (b b' : MinutePoint) :
  minute b = minute b' -> total b = total b' ->
  (forall size, count_of size b = count_of size b') -> b = b'.
Proof.
  destruct b, b'. simpl. intros -> -> H.
  pose proof (H Small) as H1. pose proof (H Medium) as H2.
  pose proof (H Large) as H3. pose proof (H XL) as H4. simpl in *.
  congruence.
Qed.

(** Two lists with the same counts give the same buckets. *)
Lemma minuteData_ext l l' :
  (forall f, count_where f l = count_where f l') -> minuteData l = minuteData l'.
Proof.
  intros H. apply list_eq. intros i.
  destruct (minuteData l !! i) as [b|] eqn:E, (minuteData l' !! i) as [b'|] eqn:E'.
  - f_equal.
    destruct (minuteData_lookup _ _ _ E) as (H1 & H2 & H3).
    destruct (minuteData_lookup _ _ _ E') as (H1' & H2' & H3').
    apply MinutePoint_eq; [congruence | rewrite H2, H2'; apply H |].
    intros size. rewrite H3, H3'. apply H.
  - apply lookup_lt_Some in E. apply lookup_ge_None in E'.
    rewrite minuteData_length in *. lia.
  - apply lookup_lt_Some in E'. apply lookup_ge_None in E.
    rewrite minuteData_length in *. lia.
  - reflexivity.
Qed.

Lemma minuteData_lookup_lt events i :
  (i < 60)%nat -> exists b, minuteData events !! i = Some b.
Proof.
  intros Hi. destruct (minuteData events !! i) as [b|] eqn:E; [eauto|].
  apply lookup_ge_None in E. rewrite minuteData_length in E. unfold mins in E. lia.
Qed.

(** X1. The order of the events is irrelevant to the buckets. *)
Theorem minuteData_order_irrelevant (events events' : list DetectionEvent) :
  Permutation events events' -> minuteData events = minuteData events'.
Proof.
  intros H. apply minuteData_ext. intros f. apply count_where_perm, H.
Qed.

Lemma minuteData_order_irrelevant_witness :
  minuteData three_events = minuteData (rev three_events).
Proof.
  apply minuteData_order_irrelevant.
  unfold three_events. simpl rev.
  eapply perm_trans; [apply perm_swap|].
  eapply perm_trans; [apply perm_skip, perm_swap|].
  apply perm_swap.
Defined.

(** X2. The buckets of a concatenation are the sums, bucket by bucket and
    counter by counter, of the buckets of the parts, so the aggregation can
    be split over parts of the events and combined by addition. *)
Theorem minuteData_of_concatenation (events1 events2 : list DetectionEvent)
    (i : nat) (b : MinutePoint) :
  minuteData (events1 ++ events2)%list !! i = Some b ->
  exists b1 b2,
    minuteData events1 !! i = Some b1
    /\ minuteData events2 !! i = Some b2
    /\ minute b = minute b1 /\ minute b = minute b2
    /\ total b = total b1 + total b2
    /\ forall size, count_of size b = count_of size b1 + count_of size b2.
Proof.
  intros H. pose proof (lookup_lt_Some _ _ _ H) as Hi.
  rewrite minuteData_length in Hi.
  destruct (minuteData_lookup_lt events1 i Hi) as [b1 E1].
  destruct (minuteData_lookup_lt events2 i Hi) as [b2 E2].
  exists b1, b2.
  destruct (minuteData_lookup _ _ _ H) as (H1 & H2 & H3).
  destruct (minuteData_lookup _ _ _ E1) as (H11 & H12 & H13).
  destruct (minuteData_lookup _ _ _ E2) as (H21 & H22 & H23).
  repeat split; try congruence.
  - rewrite H2, H12, H22. apply count_where_app.
  - intros size. rewrite H3, H13, H23. apply count_where_app.
Qed.

Lemma minuteData_of_concatenation_witness :
  exists b1 b2,
    minuteData [hd nan_event three_events] !! 7%nat = Some b1
    /\ minuteData (tl three_events) !! 7%nat = Some b2
    /\ total b1 + total b2 = 2.
Proof.
  destruct (minuteData_of_concatenation [hd nan_event three_events] (tl three_events)
              7%nat
              {| minute := "00:07"; total := 2; count_Small := 0; count_Medium := 0;
                 count_Large := 0; count_XL := 2 |})
    as (b1 & b2 & H1 & H2 & _ & _ & H3 & _); [vm_compute; reflexivity|].
  exists b1, b2. simpl in H3. auto.
Defined.

(** ** Session totals *)

Lemma sum_counts_cons size p series :
  sum_counts size (p :: series) = count_of size p + sum_counts size series.
Proof. reflexivity. Qed.

Lemma sum_counts_alter size s i buckets :
  (i < length buckets)%nat ->
  sum_counts size (alter (bump s) i buckets)
  = sum_counts size buckets + (if size_eqb s size then 1 else 0).
Proof.
  revert i. induction buckets as [|b buckets IH]; intros i Hi; simpl in Hi; [lia|].
  destruct i as [|i].
  - change (alter (bump s) 0%nat (b :: buckets)) with (bump s b :: buckets).
    rewrite !sum_counts_cons. destruct s, size; simpl; lia.
  - change (alter (bump s) (S i) (b :: buckets))
      with (b :: alter (bump s) i buckets).
    rewrite !sum_counts_cons, IH by lia. lia.
Qed.

Lemma sum_counts_minuteData size events :
  sum_counts size (minuteData events)
  = count_where (fun e => negb (isNaN (timeOffset e)) && size_eqb (e_size e) size)
      events.
Proof.
  induction events as [|e events IH] using rev_ind.
  - destruct size; vm_compute; reflexivity.
  - rewrite minuteData_snoc, count_where_snoc,
      minute_step_bucket by apply minuteData_length.
    rewrite <- bucket_of_placed.
    destruct (bucket_of e) as [i|] eqn:E.
    + rewrite sum_counts_alter, IH; [reflexivity|].
      rewrite minuteData_length. eapply to_index_bound, E.
    + rewrite IH. simpl. lia.
Qed.

Lemma totals_fold_all series acc :
  let t := fold_left
    (fun base p =>
       {| t_total := t_total base + total p;
          t_Small := t_Small base + count_Small p;
          t_Medium := t_Medium base + count_Medium p;
          t_Large := t_Large base + count_Large p;
          t_XL := t_XL base + count_XL p |}) series acc in
  t_Small t = t_Small acc + sum_counts Small series
  /\ t_Medium t = t_Medium acc + sum_counts Medium series
  /\ t_Large t = t_Large acc + sum_counts Large series
  /\ t_XL t = t_XL acc + sum_counts XL series.
Proof.
  revert acc. induction series as [|p series IH]; intros acc.
  - simpl. lia.
  - cbn [fold_left]. destruct (IH
      {| t_total := t_total acc + total p;
         t_Small := t_Small acc + count_Small p;
         t_Medium := t_Medium acc + count_Medium p;
         t_Large := t_Large acc + count_Large p;
         t_XL := t_XL acc + count_XL p |}) as (H1 & H2 & H3 & H4).
    cbv zeta. rewrite H1, H2, H3, H4, !sum_counts_cons. simpl. lia.
Qed.

(** X3. The session totals: [total] is the number of events placed in a bucket,
    each size total is the number of those of that size, and the four size
    totals add up to [total]. *)
Theorem totals_count_placed_events_by_size (events : list DetectionEvent) :
  let t := totals (minuteData events) in
  let placed_of size :=
    count_where (fun e => negb (isNaN (timeOffset e)) && size_eqb (e_size e) size)
      events in
  t_total t = Z.of_nat (length (placed events))
  /\ t_Small t = placed_of Small
  /\ t_Medium t = placed_of Medium
  /\ t_Large t = placed_of Large
  /\ t_XL t = placed_of XL
  /\ t_total t = t_Small t + t_Medium t + t_Large t + t_XL t.
Proof.
  intros t placed_of.
  assert (t_total t = Z.of_nat (length (placed events))) as H0
    by (unfold t; rewrite totals_total; apply sum_totals_placed).
  destruct (totals_fold_all (minuteData events)
              {| t_total := 0; t_Small := 0; t_Medium := 0; t_Large := 0; t_XL := 0 |})
    as (H1 & H2 & H3 & H4).
  cbv zeta in H1, H2, H3, H4. fold (totals (minuteData events)) in H1, H2, H3, H4.
  fold t in H1, H2, H3, H4. simpl in H1, H2, H3, H4.
  rewrite sum_counts_minuteData in H1, H2, H3, H4.
  repeat split; try assumption.
  rewrite H0, H1, H2, H3, H4. unfold placed, count_where.
  clear. induction events as [|e events IH]; simpl; [reflexivity|].
  destruct (isNaN (timeOffset e)); simpl; [exact IH|].
  destruct (e_size e); simpl; lia.
Qed.

(** ** The charted series *)

(** X4. Charting one size replaces each total by the counter of that size and
    changes nothing else; the charted totals of the four sizes add up to the
    total of the bucket, and none exceeds it. *)
Theorem chartMinuteData_splits_totals (events : list DetectionEvent) (i : nat)
    (b : MinutePoint) :
  minuteData events !! i = Some b ->
  chartMinuteData None (minuteData events) = minuteData events
  /\ (forall size,
        exists c, chartMinuteData (Some size) (minuteData events) !! i = Some c
                  /\ minute c = minute b
                  /\ total c = count_of size b
                  /\ 0 <= total c <= total b
                  /\ forall size', count_of size' c = count_of size' b)
  /\ count_of Small b + count_of Medium b + count_of Large b + count_of XL b
     = total b.
Proof.
  intros H. split; [reflexivity|].
  destruct (minuteData_lookup _ _ _ H) as (H1 & H2 & H3).
  split.
  - intros size. eexists. split.
    + unfold chartMinuteData. rewrite lookup_map, H. reflexivity.
    + simpl. split; [reflexivity|]. split; [reflexivity|]. split.
      * rewrite H3, H2. split; [apply count_where_nonneg|].
        apply count_where_le. intros e He. apply andb_true_iff in He. tauto.
      * intros []; reflexivity.
  - pose proof (minuteData_balanced events) as Hb.
    rewrite Forall_lookup in Hb. specialize (Hb i b H). unfold balanced in Hb.
    simpl. lia.
Qed.

Lemma chartMinuteData_splits_totals_witness :
  exists c, chartMinuteData (Some XL) (minuteData three_events) !! 7%nat = Some c
            /\ total c = 2.
Proof.
  destruct (chartMinuteData_splits_totals three_events 7%nat
              {| minute := "00:07"; total := 2; count_Small := 0; count_Medium := 0;
                 count_Large := 0; count_XL := 2 |})
    as (_ & H & _); [vm_compute; reflexivity|].
  destruct (H XL) as (c & Hc & _ & Ht & _). exists c. split; [exact Hc | exact Ht].
Defined.

(** ** The busiest window at the edges *)

(** X5. A series of fewer than ten buckets has no window: the scan does not run
    and the result is the zero window at index 0. *)
Theorem peak10Min_short_series (series : list MinutePoint) :
  (length series < 10)%nat ->
  peak10Min series = {| count := 0; start := "00:00"; end_ := "00:09" |}.
Proof.
  intros H. unfold peak10Min, peak_scan.
  replace (Z.to_nat (Z.of_nat (length series) - 10 + 1)) with 0%nat by lia.
  reflexivity.
Qed.

Lemma peak10Min_short_series_witness :
  peak10Min (series_of [7; 8; 9]) = {| count := 0; start := "00:00"; end_ := "00:09" |}.
Proof. apply peak10Min_short_series. simpl. lia. Defined.

Lemma sum_totals_app s1 s2 :
  sum_totals (s1 ++ s2)%list = sum_totals s1 + sum_totals s2.
Proof.
  induction s1 as [|p s1 IH]; [reflexivity|].
  change ((p :: s1) ++ s2)%list with (p :: (s1 ++ s2))%list.
  rewrite !sum_totals_cons, IH. lia.
Qed.

Lemma window_total_le series i :
  Forall (fun p => 0 <= total p) series -> window_total series i <= sum_totals series.
Proof.
  intros H. unfold window_total.
  rewrite <- (take_drop i series) at 2. rewrite sum_totals_app.
  rewrite <- (take_drop 10 (drop i series)) at 2. rewrite sum_totals_app.
  pose proof (sum_totals_nonneg (take i series) (Forall_take _ _ _ H)).
  pose proof (sum_totals_nonneg (drop 10 (drop i series))
                (Forall_drop _ _ _ (Forall_drop _ _ _ H))).
  lia.
Qed.

Lemma peak_count_bounds series :
  Forall (fun p => 0 <= total p) series ->
  0 <= count (peak10Min series) <= sum_totals series.
Proof.
  intros H. unfold peak10Min. rewrite peak_scan_fold.
  pose proof (scanned_fold series (Z.to_nat (Z.of_nat (length series) - 10 + 1)))
    as [_ Hst].
  destruct (fold_left _ _ _) as [best bs]. simpl in *.
  destruct Hst as [[-> _]|(Hp & _ & Hw & _)].
  - split; [lia | apply sum_totals_nonneg, H].
  - split; [lia|]. rewrite <- Hw, window_sum_total. apply window_total_le, H.
Qed.

(** X6. The count of the busiest window is never negative and never more than
    the number of events aggregated; without events it is the zero window at
    index 0. *)
Theorem peak10Min_count_within_events (events : list DetectionEvent) :
  0 <= count (peak10Min (minuteData events)) <= Z.of_nat (length events)
  /\ peak10Min (minuteData [])
     = {| count := 0; start := "00:00"; end_ := "00:09" |}.
Proof.
  split; [|vm_compute; reflexivity].
  pose proof (peak_count_bounds _ (minuteData_nonneg events)) as [H1 H2].
  split; [exact H1|]. rewrite sum_totals_placed in H2.
  assert (length (placed events) <= length events)%nat
    by (unfold placed; apply List.filter_length_le).
  lia.
Qed.

(** ** The synthetic events aggregated *)

Lemma in_bucket_time i e e' : e_time e = e_time e' -> in_bucket i e = in_bucket i e'.
Proof. unfold in_bucket, bucket_of, minIdx. intros ->. reflexivity. Qed.

Lemma count_where_in_bucket_times i events :
  count_where (in_bucket i) events
  = count_where (in_bucket i) (map (fun e => event_at (e_time e)) events).
Proof.
  unfold count_where. f_equal.
  induction events as [|e events IH]; [reflexivity|]. simpl.
  rewrite (in_bucket_time i (event_at (e_time e)) e eq_refl).
  destruct (in_bucket i e); simpl; lia.
Qed.

Lemma lookup_total (series : list MinutePoint) i :
  map total series !! i = option_map total (series !! i).
Proof. apply lookup_map. Qed.

(** The totals of the buckets depend on the time strings alone. *)
Lemma minuteData_totals_by_times events events' :
  map e_time events = map e_time events' ->
  map total (minuteData events) = map total (minuteData events').
Proof.
  intros H. apply list_eq. intros i. rewrite !lookup_total.
  destruct (minuteData events !! i) as [b|] eqn:E,
           (minuteData events' !! i) as [b'|] eqn:E'; simpl.
  - f_equal.
    destruct (minuteData_lookup _ _ _ E) as (_ & -> & _).
    destruct (minuteData_lookup _ _ _ E') as (_ & -> & _).
    rewrite (count_where_in_bucket_times i events),
            (count_where_in_bucket_times i events').
    rewrite <- !(map_map e_time event_at), H. reflexivity.
  - apply lookup_lt_Some in E. apply lookup_ge_None in E'.
    rewrite minuteData_length in *. lia.
  - apply lookup_lt_Some in E'. apply lookup_ge_None in E.
    rewrite minuteData_length in *. lia.
  - reflexivity.
Qed.

Lemma syntheticEvents_times seedString :
  map e_time (syntheticEvents seedString) = synthetic_times.
Proof.
  rewrite syntheticEvents_closed, map_map. unfold synthetic_times.
  apply map_ext_in. intros i Hi. apply in_seq in Hi.
  unfold nth_event. simpl e_time.
  rewrite synthetic_offsets by (unfold totalEvents; lia). reflexivity.
Qed.

Lemma synthetic_times_totals :
  map total (minuteData (map event_at synthetic_times)) = synthetic_totals.
Proof. vm_compute. reflexivity. Qed.

Lemma window_sum_by_totals s1 s2 i :
  map total s1 = map total s2 -> window_sum s1 i = window_sum s2 i.
Proof.
  intros H. unfold window_sum.
  assert (forall j, match s1 !! j with Some p => total p | None => 0 end
                    = match s2 !! j with Some p => total p | None => 0 end) as Hj.
  { intros j. pose proof (f_equal (fun l => l !! j) H) as Hl. simpl in Hl.
    rewrite !lookup_total in Hl.
    destruct (s1 !! j), (s2 !! j); simpl in Hl; congruence. }
  generalize 0 at 2 4. induction (seq 0 10) as [|j js IH]; intros acc; simpl.
  - reflexivity.
  - rewrite Hj. apply IH.
Qed.

(** The busiest window depends on the totals alone. *)
Lemma peak10Min_by_totals s1 s2 :
  map total s1 = map total s2 -> peak10Min s1 = peak10Min s2.
Proof.
  intros H. unfold peak10Min, peak_scan.
  assert (length s1 = length s2) as ->
    by (rewrite <- (length_map total s1), H, length_map; reflexivity).
  f_equal. generalize (0, 0%nat).
  induction (seq 0 _) as [|i l IH]; intros st; simpl; [reflexivity|].
  rewrite (window_sum_by_totals s1 s2 i H). apply IH.
Qed.

Lemma sum_totals_by_totals s1 s2 :
  map total s1 = map total s2 -> sum_totals s1 = sum_totals s2.
Proof.
  revert s2. induction s1 as [|p s1 IH]; intros [|q s2] H; try discriminate.
  - reflexivity.
  - injection H as Hp Hs. rewrite !sum_totals_cons, Hp, (IH _ Hs). reflexivity.
Qed.

(** X7. Whatever the seed string, the synthetic events give the same chart of
    totals: every event is placed, four or three a minute, 220 in all; the
    busiest ten minutes are the first ten with 37 events, and the throughput
    is 3.7 a minute. *)
Theorem synthetic_events_aggregate_alike (seedString : string) :
  let series := minuteData (syntheticEvents seedString) in
  map total series = synthetic_totals
  /\ sum_totals series = 220
  /\ t_total (totals series) = 220
  /\ peak10Min series = {| count := 37; start := "00:00"; end_ := "00:09" |}
  /\ pizzasPerMin (length series) (t_total (totals series)) = of_decimal false 37 (-1).
Proof.
  intros series.
  assert (map total series = map total (minuteData (map event_at synthetic_times))) as H.
  { apply minuteData_totals_by_times. rewrite syntheticEvents_times, map_map.
    symmetry. apply map_id. }
  assert (sum_totals series = 220) as Hs
    by (rewrite (sum_totals_by_totals _ _ H); vm_compute; reflexivity).
  split; [rewrite H; apply synthetic_times_totals|].
  split; [exact Hs|].
  split; [rewrite totals_total; exact Hs|].
  split; [rewrite (peak10Min_by_totals _ _ H); vm_compute; reflexivity|].
  rewrite totals_total, Hs. unfold series. rewrite minuteData_length.
  vm_compute. reflexivity.
Qed.

(** ** Strings as lists of characters *)

Lemma chars_app a b : Str.chars (a ++ b) = (Str.chars a ++ Str.chars b)%list.
Proof. induction a as [|c a IH]; simpl; [reflexivity | f_equal; exact IH]. Qed.

Lemma of_chars_chars a : Str.of_chars (Str.chars a) = a.
Proof. apply string_of_list_ascii_of_string. Qed.

Lemma ends_with_slash_snoc a : ends_with_slash (a ++ "/") = true.
Proof.
  unfold ends_with_slash. rewrite chars_app, rev_app_distr. reflexivity.
Qed.

Lemma slice_0_m1_snoc a c : slice_0_m1 (a ++ String c "") = a.
Proof.
  unfold slice_0_m1. rewrite chars_app. simpl Str.chars.
  rewrite removelast_last. apply of_chars_chars.
Qed.

Lemma starts_with_slash_cons b : starts_with_slash ("/" ++ b) = true.
Proof. reflexivity. Qed.

Lemma joinPath_plain a b :
  ends_with_slash a = false -> starts_with_slash b = false ->
  joinPath a b = a ++ "/" ++ b.
Proof.
  intros Ha Hb. unfold joinPath. rewrite Ha, Hb.
  destruct a; reflexivity.
Qed.

Lemma increasing_NoDup l : increasing l = true -> List.NoDup l.
Proof.
  assert (forall l x, increasing (x :: l) = true -> Forall (fun y => x < y) l) as Hlt.
  { clear. induction l as [|y l IH]; intros x H; [constructor|].
    simpl in H. apply andb_true_iff in H as [Hxy Hr]. apply Z.ltb_lt in Hxy.
    constructor; [exact Hxy|].
    specialize (IH y Hr). eapply Forall_impl; [exact IH|]. simpl. intros; lia. }
  induction l as [|x l IH]; intros H; [constructor|].
  constructor.
  - intros Hin. specialize (Hlt l x H). rewrite List.Forall_forall in Hlt.
    specialize (Hlt x Hin). lia.
  - apply IH. destruct l as [|y l]; [reflexivity|].
    simpl in H. apply andb_true_iff in H as [_ H]. exact H.
Qed.

(** ** [joinPath] *)

(** X8. When the left part does not end with a slash and the right part does
    not start with one, [joinPath] gives the two parts with one slash between
    them, and it gives the same whether or not the left part is handed over
    with a trailing slash and the right part with a leading one.  The result
    is never empty and, for an empty left part, starts with a slash. *)
Theorem joinPath_single_slash (a b : string) :
  ends_with_slash a = false -> starts_with_slash b = false ->
  joinPath a b = a ++ "/" ++ b
  /\ joinPath (a ++ "/") b = a ++ "/" ++ b
  /\ joinPath a ("/" ++ b) = a ++ "/" ++ b
  /\ joinPath (a ++ "/") ("/" ++ b) = a ++ "/" ++ b
  /\ joinPath a b <> ""
  /\ joinPath "" b = "/" ++ b.
Proof.
  intros Ha Hb.
  assert (joinPath a b = a ++ "/" ++ b) as H1 by (apply joinPath_plain; assumption).
  assert (forall r, joinPath (a ++ "/") r = joinPath a r) as H2.
  { intros r. unfold joinPath.
    rewrite ends_with_slash_snoc, slice_0_m1_snoc, Ha. reflexivity. }
  assert (joinPath a ("/" ++ b) = a ++ "/" ++ b) as H3.
  { unfold joinPath. rewrite Ha, starts_with_slash_cons. destruct a; reflexivity. }
  repeat split.
  - exact H1.
  - rewrite H2. exact H1.
  - exact H3.
  - rewrite H2. exact H3.
  - rewrite H1. destruct a; discriminate.
  - unfold joinPath. rewrite Hb. reflexivity.
Qed.

Lemma joinPath_single_slash_witness :
  joinPath "/admin" demo_path = "/admin/demo/pizza-events.json"
  /\ joinPath "/admin/" ("/" ++ demo_path) = "/admin/demo/pizza-events.json".
Proof.
  destruct (joinPath_single_slash "/admin" demo_path eq_refl eq_refl)
    as (H1 & _ & _ & H4 & _).
  split; [exact H1 | exact H4].
Defined.

(** ** [formatMinuteTick] and the labels of the buckets *)

Lemma split_colon_free s : colon_free s -> Str.split ":" s = [s].
Proof.
  unfold colon_free. induction s as [|c s IH]; intros H; [reflexivity|].
  simpl in H. apply Forall_cons in H as [Hc Hs]. simpl.
  destruct (Ascii.eqb_spec c ":"); [contradiction|].
  rewrite (IH Hs). reflexivity.
Qed.

Lemma split_nonempty sep s : Str.split sep s <> [].
Proof.
  destruct s as [|c s]; simpl; [discriminate|].
  destruct (Ascii.eqb c sep); [discriminate|].
  destruct (Str.split sep s); discriminate.
Qed.

Lemma split_app_sep p s :
  colon_free p -> Str.split ":" (p ++ String ":" s) = p :: Str.split ":" s.
Proof.
  unfold colon_free. induction p as [|c p IH]; intros H; [reflexivity|].
  simpl in H. apply Forall_cons in H as [Hc Hp].
  change (String c p ++ String ":" s) with (String c (p ++ String ":" s)).
  simpl. destruct (Ascii.eqb_spec c ":"); [contradiction|].
  rewrite (IH Hp). reflexivity.
Qed.

Lemma last_default {A} (l : list A) d d' : l <> [] -> List.last l d = List.last l d'.
Proof.
  induction l as [|y l IH]; intros H; [contradiction|].
  destruct l as [|z l]; [reflexivity|].
  change (List.last (y :: z :: l) d) with (List.last (z :: l) d).
  change (List.last (y :: z :: l) d') with (List.last (z :: l) d').
  apply IH. discriminate.
Qed.

Lemma last_cons_nonempty {A} (x : A) l d d' : l <> [] -> List.last (x :: l) d = List.last l d'.
Proof.
  intros H. destruct l as [|y l]; [contradiction|].
  change (List.last (x :: y :: l) d) with (List.last (y :: l) d).
  apply last_default. discriminate.
Qed.

Lemma string_of_uint_colon_free u : colon_free (NilZero.string_of_uint u).
Proof.
  assert (forall u, colon_free (NilEmpty.string_of_uint u)) as H.
  { clear. unfold colon_free.
    induction u; simpl; try constructor; try discriminate; assumption. }
  destruct u; simpl; try apply H;
    try (unfold colon_free; simpl; constructor; [discriminate|apply H]).
  unfold colon_free. simpl. constructor; [discriminate|constructor].
Qed.

Lemma repeat_char_colon_free n s : colon_free s -> colon_free (Str.repeat_char "0" n ++ s).
Proof.
  intros H. induction n as [|n IH]; [exact H|].
  unfold colon_free. simpl. constructor; [discriminate|exact IH].
Qed.

Lemma padded_index_colon_free n i : colon_free (Str.padStart0 n (Str.of_int (Z.of_nat i))).
Proof.
  unfold Str.padStart0. apply repeat_char_colon_free.
  unfold Str.of_int. replace (Z.of_nat i <? 0) with false by (symmetry; apply Z.ltb_ge; lia).
  apply string_of_uint_colon_free.
Qed.

Lemma formatMinuteTick_label i :
  formatMinuteTick (toMinLabel i) = Str.padStart0 2 (Str.of_int (Z.of_nat i)).
Proof.
  unfold formatMinuteTick, toMinLabel.
  change ("00:" ++ ?s) with ("00" ++ String ":" s).
  rewrite split_app_sep by (unfold colon_free; simpl; repeat constructor; discriminate).
  rewrite (split_colon_free _ (padded_index_colon_free 2 i)). reflexivity.
Qed.

(** X9. [formatMinuteTick] keeps a string without a colon as it is and, of a
    string with colons, keeps what follows the last one.  Applied to the
    label of the bucket of any index it gives the index in two digits; so
    the ticks of the chart of any list of events are the sixty distinct
    strings 00 to 59, in this order. *)
Theorem formatMinuteTick_of_bucket_labels (events : list DetectionEvent) :
  (forall s, colon_free s -> formatMinuteTick s = s)
  /\ (forall p s, colon_free s -> formatMinuteTick (p ++ String ":" s) = s)
  /\ (forall i, formatMinuteTick (toMinLabel i)
                = Str.padStart0 2 (Str.of_int (Z.of_nat i)))
  /\ map (fun b => formatMinuteTick (minute b)) (minuteData events) = minute_ticks
  /\ NoDup minute_ticks.
Proof.
  split.
  { intros s H. unfold formatMinuteTick. rewrite (split_colon_free _ H). reflexivity. }
  split.
  { intros p s H. unfold formatMinuteTick. revert s H.
    induction p as [|c p IH]; intros s H.
    - simpl. rewrite (split_colon_free _ H). reflexivity.
    - change (String c p ++ String ":" s) with (String c (p ++ String ":" s)).
      specialize (IH s H).
      pose proof (split_nonempty ":" (p ++ String ":" s)) as Hne.
      simpl Str.split. destruct (Ascii.eqb c ":").
      + rewrite (last_cons_nonempty _ _ _ (p ++ String ":" s) Hne). exact IH.
      + destruct (Str.split ":" (p ++ String ":" s)) as [|h t] eqn:E;
          [contradiction|].
        destruct t as [|h' t].
        * exfalso. simpl in IH. subst h.
          assert (length (Str.split ":" (p ++ String ":" s)) >= 2)%nat as Hl.
          { clear. induction p as [|c p IH]; simpl.
            - destruct (Str.split ":" s) eqn:E; [destruct (split_nonempty _ _ E)|].
              simpl. lia.
            - destruct (Ascii.eqb c ":"); simpl.
              + lia.
              + destruct (Str.split ":" (p ++ String ":" s)); simpl in *; lia. }
          rewrite E in Hl. simpl in Hl. lia.
        * rewrite (last_cons_nonempty _ (h' :: t) _ (p ++ String ":" s)) in *
            by discriminate.
          exact IH. }
  split; [apply formatMinuteTick_label|].
  split.
  - apply list_eq. intros i. rewrite lookup_map. unfold minute_ticks.
    destruct (minuteData events !! i) as [b|] eqn:E; cbn [option_map].
    + destruct (minuteData_lookup _ _ _ E) as (Hm & _).
      pose proof (lookup_lt_Some _ _ _ E) as Hi. rewrite minuteData_length in Hi.
      rewrite Hm, formatMinuteTick_label.
      symmetry. rewrite lookup_map, lookup_seq_lt by exact Hi. reflexivity.
    + apply lookup_ge_None in E. rewrite minuteData_length in E.
      symmetry. apply lookup_ge_None. rewrite length_map, length_seq. exact E.
  - apply NoDup_ListNoDup.
    apply (NoDup_map_inv digits_value).
    apply increasing_NoDup. vm_compute. reflexivity.
Qed.

Lemma in_zseq z start len :
  start <= z < start + Z.of_nat len -> In z (zseq start len).
Proof.
  revert start. induction len as [|len IH]; intros start H; [lia|].
  simpl. destruct (Z.eq_dec start z) as [E|E]; [left; exact E|].
  right. apply IH. lia.
Qed.

(** ** [toHms] and [hmsToSeconds] *)

(** X10. Within the hour that the chart covers, [toHms] writes a whole number of
    seconds as hours, minutes and seconds of two digits each, and
    [hmsToSeconds] reads the string back as the same number.  The string
    that [toHms] gives for NaN reads back as offset 0. *)
Theorem toHms_reads_back_within_the_hour (n : Z) :
  0 <= n < 3600 ->
  toHms (of_Z n) = "00:" ++ pad2 (n / 60) ++ ":" ++ pad2 (n mod 60)
  /\ hmsToSeconds (toHms (of_Z n)) = of_Z n
  /\ toHms NaN = "NaN:NaN:NaN"
  /\ hmsToSeconds (toHms NaN) = zero.
Proof.
  intros Hn.
  assert (forallb (fun n =>
            let hms := toHms (of_Z n) in
            String.eqb hms ("00:" ++ pad2 (n / 60) ++ ":" ++ pad2 (n mod 60))
            && NumStr.same_number (hmsToSeconds hms) (of_Z n))
            (zseq 0 3600) = true) as H by (vm_compute; reflexivity).
  rewrite forallb_forall in H.
  assert (In n (zseq 0 3600)) as Hin by (apply in_zseq; lia).
  apply H in Hin. cbv zeta in Hin. apply andb_true_iff in Hin as [H1 H2].
  split; [apply String.eqb_eq, H1|].
  split; [apply same_number_eq, H2|].
  split; vm_compute; reflexivity.
Qed.

Lemma toHms_reads_back_within_the_hour_witness :
  toHms (of_Z 3583) = "00:59:43" /\ hmsToSeconds (toHms (of_Z 3583)) = of_Z 3583.
Proof.
  destruct (toHms_reads_back_within_the_hour 3583) as (H1 & H2 & _); [lia|].
  split; [exact H1 | exact H2].
Defined.

(** ** The throughput *)

Lemma of_Z_10 : of_Z 10 = c10.
Proof. vm_compute. reflexivity. Qed.

Lemma Math_max_1_60 : Math_max [of_Z 1; of_Z (Z.of_nat 60)] = c60.
Proof. vm_compute. reflexivity. Qed.

(** X11. For a list of at most 3000 events the throughput shown is the number
    of placed events divided by 6, rounded to the nearest integer with a half
    rounded up, and then divided by 10: the events per minute over the 60
    buckets, to one decimal. *)
Theorem pizzasPerMin_rounds_half_up (events : list DetectionEvent) :
  Z.of_nat (length events) <= 3000 ->
  pizzasPerMin (length (minuteData events)) (t_total (totals (minuteData events)))
  = div (of_Z ((Z.of_nat (length (placed events)) + 3) / 6)) (of_Z 10).
Proof.
  intros Hl.
  rewrite minuteData_length, totals_total, sum_totals_placed.
  assert (length (placed events) <= length events)%nat as Hp
    by (unfold placed; apply List.filter_length_le).
  assert (forallb (fun t =>
            NumStr.same_number (Math_round (mul (div (of_Z t) c60) c10))
                               (of_Z ((t + 3) / 6)))
            (zseq 0 3001) = true) as H by (vm_compute; reflexivity).
  rewrite forallb_forall in H.
  unfold pizzasPerMin, mins. rewrite Math_max_1_60, of_Z_10. f_equal.
  apply same_number_eq, H, in_zseq. lia.
Qed.

Lemma pizzasPerMin_rounds_half_up_witness :
  pizzasPerMin (length (minuteData three_events))
               (t_total (totals (minuteData three_events)))
  = div (of_Z ((Z.of_nat (length (placed three_events)) + 3) / 6)) (of_Z 10).
Proof. apply pizzasPerMin_rounds_half_up. simpl. lia. Defined.

(** ** The synthetic events under the time filters *)

Lemma filter_suffix {A} (f : A -> bool) (l : list A) (k : nat) :
  (forall i x, l !! i = Some x -> f x = negb (i <? k)%nat) ->
  List.filter f l = drop k l.
Proof.
  revert k. induction l as [|x l IH]; intros k H; [destruct k; reflexivity|].
  destruct k as [|k].
  - rewrite drop_0. simpl.
    rewrite (H 0%nat x eq_refl). simpl. f_equal.
    rewrite (IH 0%nat); [apply drop_0|].
    intros i y Hy. apply (H (S i) y Hy).
  - simpl. rewrite (H 0%nat x eq_refl). simpl.
    apply IH. intros i y Hy. apply (H (S i) y Hy).
Qed.

Lemma maxOffset_by_times base :
  maxOffset base = Math_max (map hmsToSeconds (map e_time base)).
Proof. unfold maxOffset. rewrite map_map. reflexivity. Qed.

Lemma syntheticEvents_nonempty seedString : syntheticEvents seedString <> [].
Proof.
  intros H. apply (f_equal (@length _)) in H.
  rewrite syntheticEvents_closed, length_map, length_seq in H. discriminate.
Qed.

Lemma syntheticEvents_lookup_time seedString i ev :
  syntheticEvents seedString !! i = Some ev ->
  synthetic_times !! i = Some (e_time ev) /\ e_timestamp ev = None
  /\ e_id ev = default_id i.
Proof.
  intros H. split.
  - rewrite <- (syntheticEvents_times seedString), lookup_map, H. reflexivity.
  - rewrite syntheticEvents_closed, lookup_map in H.
    destruct (seq 0 totalEvents !! i) as [j|] eqn:E; [|discriminate].
    apply lookup_seq in E as [-> _]. simpl in H. injection H as <-.
    split; reflexivity.
Qed.

(** X12. Whatever the seed string, a relative window applied to the synthetic
    events keeps their tail: the last 19 events for 5 minutes, the last 37
    for 10 minutes, the last 111 for 30 minutes, and all 220 for 60 minutes
    or for the selector of all events. *)
Theorem synthetic_events_relative_window_is_a_tail
    (Date_parse : string -> number) (seedString : string)
    (dateTimeFrom dateTimeTo : option string) (timeRange : TimeRangeKey) :
  supplied dateTimeFrom = false -> supplied dateTimeTo = false ->
  let kept := timeFilteredEvents Date_parse true dateTimeFrom dateTimeTo
                timeRange (syntheticEvents seedString) in
  kept = drop (220 - window_keeps timeRange) (syntheticEvents seedString)
  /\ length kept = window_keeps timeRange.
Proof.
  intros Hf Ht kept.
  assert (kept = drop (220 - window_keeps timeRange) (syntheticEvents seedString))
    as Hk.
  { unfold kept.
    assert (timeRange = range_all \/ timeRange <> range_all) as [->|Hr]
      by (destruct timeRange; (left; reflexivity) || (right; discriminate)).
    - rewrite all_mode_identity by assumption. reflexivity.
    - rewrite (relative_mode_filter _ _ _ _ _ Hf Ht Hr
                 (syntheticEvents_nonempty seedString)).
      apply filter_suffix. intros i ev Hev.
      destruct (syntheticEvents_lookup_time _ _ _ Hev) as (Hti & _).
      unfold in_window, minOffset, timeOffset.
      rewrite maxOffset_by_times, syntheticEvents_times.
      assert ((let M := Math_max (map hmsToSeconds synthetic_times) in
               let offsets := map hmsToSeconds synthetic_times in
               forallb (fun r =>
                 let lo := Math_max [zero; sub M (of_Z (60 * minutes_of r))] in
                 let skipped := (220 - window_keeps r)%nat in
                 forallb (fun i =>
                   match offsets !! i with
                   | Some s => Bool.eqb (ge s lo && le s M) (negb (i <? skipped)%nat)
                   | None => false
                   end) (seq 0 220))
                 [range_5m; range_10m; range_30m; range_60m]) = true) as H
        by (vm_compute; reflexivity).
      cbv zeta in H.
      rewrite forallb_forall in H.
      assert (In timeRange [range_5m; range_10m; range_30m; range_60m]) as Hin
        by (destruct timeRange; simpl; tauto).
      specialize (H _ Hin). rewrite forallb_forall in H.
      assert (i < 220)%nat as Hi.
      { apply lookup_lt_Some in Hev.
        rewrite syntheticEvents_closed, length_map, length_seq in Hev. exact Hev. }
      specialize (H i (proj2 (in_seq _ _ _) (conj (Nat.le_0_l _) Hi))).
      rewrite lookup_map, Hti in H. apply Bool.eqb_prop in H. exact H. }
  split; [exact Hk|].
  rewrite Hk, length_drop, syntheticEvents_closed, length_map, length_seq.
  destruct timeRange; reflexivity.
Qed.

Lemma synthetic_events_relative_window_is_a_tail_witness :
  length (timeFilteredEvents Date_parse_utc true None None range_10m
            (syntheticEvents "demo:events")) = 37%nat.
Proof.
  apply (synthetic_events_relative_window_is_a_tail Date_parse_utc "demo:events"
           None None range_10m); reflexivity.
Defined.

(** X13. Whatever the seed string, the synthetic events carry 220 distinct
    identifiers and no timestamp; so when a date bound is supplied, that is
    in the absolute mode, none of them is retained, whatever the bounds and
    whatever dates the host recognises, and the chart built from them shows
    no event. *)
Theorem synthetic_events_have_no_timestamp
    (Date_parse : string -> number) (seedString : string)
    (dateTimeFrom dateTimeTo : option string) (timeRange : TimeRangeKey) :
  supplied dateTimeFrom || supplied dateTimeTo = true ->
  List.NoDup (map e_id (syntheticEvents seedString))
  /\ Forall (fun ev => e_timestamp ev = None) (syntheticEvents seedString)
  /\ timeFilteredEvents Date_parse true dateTimeFrom dateTimeTo timeRange
       (syntheticEvents seedString) = []
  /\ t_total (totals (minuteData
       (timeFilteredEvents Date_parse true dateTimeFrom dateTimeTo timeRange
          (syntheticEvents seedString)))) = 0.
Proof.
  intros H.
  assert (Forall (fun ev => e_timestamp ev = None) (syntheticEvents seedString)) as Hts.
  { apply Forall_lookup. intros i ev Hev.
    apply (syntheticEvents_lookup_time _ _ _ Hev). }
  assert (timeFilteredEvents Date_parse true dateTimeFrom dateTimeTo timeRange
            (syntheticEvents seedString) = []) as He.
  { rewrite (absolute_mode_filter _ _ _ _ _ H).
    induction Hts as [|ev l Hev _ IH]; [reflexivity|].
    simpl. unfold within_bounds at 1. rewrite Hev. simpl. exact IH. }
  split.
  { rewrite syntheticEvents_closed, map_map.
    change (map (fun x => e_id (nth_event _ x)) (seq 0 totalEvents))
      with (map default_id (seq 0 totalEvents)).
    apply (NoDup_map_inv id_number).
    apply increasing_NoDup. vm_compute. reflexivity. }
  split; [exact Hts|]. split; [exact He|].
  rewrite He. vm_compute. reflexivity.
Qed.

Lemma synthetic_events_have_no_timestamp_witness :
  timeFilteredEvents Date_parse_utc true (Some "2024-05-01T10:00") None range_all
    (syntheticEvents "demo:events") = [].
Proof.
  apply (synthetic_events_have_no_timestamp Date_parse_utc "demo:events"
           (Some "2024-05-01T10:00") None range_all). reflexivity.
Defined.

(** ** [clamp] *)

Lemma lt_gt a b : lt a b = gt b a.
Proof.
  unfold lt, gt.
  destruct a as [sa|sa| |sa ma ea]; try (destruct b as [|[]| |]; reflexivity);
  destruct b as [sb|sb| |sb mb eb]; try (destruct sa; reflexivity).
  all: rewrite !SFcompare_key by reflexivity.
  all: rewrite (lex_compare_antisym (order_key _) (order_key _)).
  all: destruct (lex_compare _ _); reflexivity.
Qed.

Lemma le_ge a b : le a b = ge b a.
Proof.
  unfold le, ge.
  destruct a as [sa|sa| |sa ma ea]; try (destruct b as [|[]| |]; reflexivity);
  destruct b as [sb|sb| |sb mb eb]; try (destruct sa; reflexivity).
  all: rewrite !SFcompare_key by reflexivity.
  all: rewrite (lex_compare_antisym (order_key _) (order_key _)).
  all: destruct (lex_compare _ _); reflexivity.
Qed.

Lemma min_step_choice l n :
  isNaN l = false -> isNaN n = false ->
  isNaN (min_step l n) = false
  /\ (min_step l n = l \/ min_step l n = n)
  /\ le (min_step l n) l = true /\ le (min_step l n) n = true.
Proof.
  intros Hl Hn.
  assert (le n l = true -> le l n = true ->
          isNaN n = false /\ (n = l \/ n = n) /\ le n l = true /\ le n n = true) as Case0
    by (intros; repeat split; auto using le_refl).
  assert (min_step l n = (if lt n l then n else l)
          \/ (min_step l n = n /\ le n l = true /\ le l n = true)) as [E|(E & H1 & H2)].
  { destruct l as [[|]|sl| |sl ml el]; try discriminate;
    destruct n as [[|]|sn| |sn mn en]; try discriminate;
    first [left; reflexivity | right; repeat split; reflexivity]. }
  - rewrite E. destruct (lt n l) eqn:C.
    + repeat split; auto using le_refl.
      rewrite lt_gt in C. apply gt_le in C. exact C.
    + repeat split; auto using le_refl.
      rewrite lt_negb_ge in C by assumption. apply negb_false_iff in C.
      rewrite <- le_ge in C. exact C.
  - rewrite E. repeat split; auto using le_refl.
Qed.

Lemma max_from_ninf x : isNaN x = false -> max_step (S754_infinity true) x = x.
Proof. destruct x as [[]|[]| |[]]; try discriminate; reflexivity. Qed.

Lemma min_from_inf x : isNaN x = false -> min_step (S754_infinity false) x = x.
Proof. destruct x as [[]|[]| |[]]; try discriminate; reflexivity. Qed.

Lemma clamp_steps n lo hi :
  isNaN lo = false -> isNaN hi = false ->
  clamp n lo hi = min_step hi (max_step lo n).
Proof.
  intros Hlo Hhi. unfold clamp, Math_min, Math_max. cbn [fold_left].
  rewrite (max_from_ninf lo Hlo), (min_from_inf hi Hhi). reflexivity.
Qed.

Lemma lt_not_le a b : lt a b = true -> le b a = true -> False.
Proof.
  rewrite le_ge. unfold lt, ge. destruct (SFcompare a b) as [[]|]; discriminate.
Qed.

Lemma le_antisym a b : le a b = true -> le b a = true -> num_eq a b = true.
Proof.
  rewrite (le_ge b a). unfold le, ge, num_eq.
  destruct (SFcompare a b) as [[]|]; try discriminate; reflexivity.
Qed.

(** X14. For bounds that are numbers with [lo <= hi], [clamp] of a number is a
    number between the bounds: the number itself when it lies strictly
    between them, a number equal to the lower bound when it lies below and
    one equal to the upper bound when it lies above.  [clamp] of NaN is NaN,
    whatever the bounds. *)
Theorem clamp_within_bounds (n lo hi : number) :
  isNaN lo = false -> isNaN hi = false -> le lo hi = true ->
  clamp NaN lo hi = NaN
  /\ (isNaN n = false ->
      isNaN (clamp n lo hi) = false
      /\ le lo (clamp n lo hi) = true
      /\ le (clamp n lo hi) hi = true
      /\ (clamp n lo hi = n \/ clamp n lo hi = lo \/ clamp n lo hi = hi)
      /\ (lt lo n = true -> lt n hi = true -> clamp n lo hi = n)
      /\ (lt n lo = true -> num_eq (clamp n lo hi) lo = true)
      /\ (gt n hi = true -> num_eq (clamp n lo hi) hi = true)).
Proof.
  intros Hlo Hhi Hle. split.
  { rewrite clamp_steps by assumption.
    destruct lo as [[]|[]| |[]]; try discriminate;
      destruct hi as [[]|[]| |[]]; try discriminate; reflexivity. }
  intros Hn. rewrite clamp_steps by assumption.
  destruct (max_step_choice lo n Hlo Hn) as (HM & HloM & HnM).
  pose proof (max_step_not_nan lo n Hlo Hn) as HMn.
  set (M := max_step lo n) in *.
  destruct (min_step_choice hi M Hhi HMn) as (HRn & HR & HRhi & HRM).
  set (R := min_step hi M) in *.
  assert (le lo R = true) as HloR by (destruct HR as [->| ->]; assumption).
  split; [exact HRn|].
  split; [exact HloR|].
  split; [exact HRhi|].
  split; [destruct HR as [->| ->]; [tauto|destruct HM as [->| ->]; tauto]|].
  split; [|split].
  - intros H1 H2.
    assert (M = n) as HMe.
    { destruct HM as [E|E]; [|exact E].
      rewrite E in HnM. destruct (lt_not_le _ _ H1 HnM). }
    destruct HR as [E|E]; [|rewrite E; exact HMe].
    rewrite E, HMe in HRM. destruct (lt_not_le _ _ H2 HRM).
  - intros H1.
    assert (M = lo) as HMe.
    { destruct HM as [E|E]; [exact E|].
      rewrite E in HloM. destruct (lt_not_le _ _ H1 HloM). }
    rewrite HMe in HRM. apply le_antisym; assumption.
  - intros H1. apply le_antisym; [exact HRhi|].
    destruct HR as [E|E]; [rewrite E; apply le_refl, Hhi|].
    rewrite E. apply (le_trans hi n M); auto. apply gt_le, H1.
Qed.

Lemma clamp_within_bounds_witness :
  clamp (of_Z 75) zero (of_Z 59) = of_Z 59 \/ clamp (of_Z 75) zero (of_Z 59) = zero
  \/ clamp (of_Z 75) zero (of_Z 59) = of_Z 75.
Proof.
  destruct (clamp_within_bounds (of_Z 75) zero (of_Z 59)) as (_ & H);
    [reflexivity | reflexivity | vm_compute; reflexivity |].
  destruct (H eq_refl) as (_ & _ & _ & [E|[E|E]] & _); auto.
Defined.

(** ** What [load] stores *)

Lemma validate_well_formed e idx ev :
  validate e idx = Some (Some ev) ->
  isFinite (e_confidence ev) = true /\ e_timestamp ev <> Some "".
Proof.
  unfold validate.
  destruct (JS.ToString (JS.or_else (JS.get e "size") (JS.VString ""))) as [s|];
    [|discriminate].
  destruct (size_of_string s) as [z|]; [|discriminate].
  destruct (JS.ToString (JS.or_else (JS.get e "time") _)) as [time|]; [|discriminate].
  destruct (JS.ToNumber (JS.get e "confidence")) as [c|]; [|discriminate].
  destruct (JS.ToString (JS.or_else (JS.get e "source") _)) as [source|]; [|discriminate].
  destruct (JS.ToString (JS.or_else (JS.get e "id") _)) as [id|]; [|discriminate].
  match goal with |- match ?t with _ => _ end = _ -> _ =>
    destruct t as [ts|]; [|discriminate] end.
  intros [= <-]. simpl. split.
  - destruct (isFinite c) eqn:E; [exact E | reflexivity].
  - destruct ts as [[|a r]|]; discriminate.
Qed.

Lemma derived_length idx raw : (length (derived idx raw) <= length raw)%nat.
Proof.
  revert idx. induction raw as [|e raw IH]; intros idx; simpl; [lia|].
  specialize (IH (S idx)). destruct (validate e idx) as [[ev|]|]; simpl; lia.
Qed.

Lemma validate_from_None raw idx :
  validate_from idx raw = None
  <-> exists i e, raw !! i = Some e /\ validate e (idx + i) = None.
Proof.
  revert idx. induction raw as [|e raw IH]; intros idx; simpl.
  - split; [discriminate | intros (i & e & H & _); discriminate].
  - destruct (validate e idx) as [r|] eqn:Ev.
    + destruct (validate_from (S idx) raw) as [evs|] eqn:E.
      * split; [discriminate|]. intros (i & e' & Hi & Hv).
        destruct i as [|i].
        -- injection Hi as <-. rewrite Nat.add_0_r in Hv. congruence.
        -- assert (validate_from (S idx) raw = None) as C.
           { apply IH. exists i, e'. split; [exact Hi|].
             replace (S idx + i)%nat with (idx + S i)%nat by lia. exact Hv. }
           congruence.
      * split; [|reflexivity]. intros _.
        apply IH in E as (i & e' & Hi & Hv). exists (S i), e'.
        split; [exact Hi|].
        replace (idx + S i)%nat with (S idx + i)%nat by lia. exact Hv.
    + split; [|reflexivity]. intros _. exists 0%nat, e.
      rewrite Nat.add_0_r. auto.
Qed.

Lemma loaded_nonempty res evs : load res = Some evs -> exists ev l, evs = ev :: l.
Proof.
  destruct res as [| |json]; try discriminate. unfold load.
  destruct (validate_from 0 (rawEvents_of json)) as [[|ev l]|]; try discriminate.
  intros [= <-]. eauto.
Qed.

(** X15. The events that [load] stores are at least one and at most as many as
    the records of the feed; each has a finite confidence and, if it has a
    timestamp, a non-empty one; and once the analysis has completed they are
    the base events of the dashboard, whatever the name of the video. *)
Theorem loaded_events_are_well_formed (res : response) (evs : list DetectionEvent)
    (videoName : string) :
  load res = Some evs ->
  (exists json, res = Body json
                /\ (length evs <= length (rawEvents_of json))%nat)
  /\ evs <> []
  /\ Forall (fun ev => isFinite (e_confidence ev) = true
                       /\ isNaN (e_confidence ev) = false
                       /\ e_timestamp ev <> Some "") evs
  /\ baseEvents true (load res) videoName = evs.
Proof.
  intros H. destruct res as [| |json]; try discriminate.
  destruct (load_inv _ _ H) as (Hne & Hv).
  pose proof (validate_from_derived _ _ _ Hv) as Hd.
  split.
  { exists json. split; [reflexivity|]. rewrite Hd. apply derived_length. }
  split; [exact Hne|]. split.
  - apply List.Forall_forall. intros ev Hin. rewrite Hd in Hin.
    apply In_derived in Hin as (i & e & _ & Hval).
    destruct (validate_well_formed _ _ _ Hval) as (Hf & Hts).
    split; [exact Hf|]. split; [|exact Hts].
    destruct (e_confidence ev); try discriminate; reflexivity.
  - rewrite H. apply baseEvents_loaded, Hne.
Qed.

Lemma loaded_events_are_well_formed_witness :
  baseEvents true (load (Body mixed_feed)) "cutting-table.mp4"
  = derived 0 (rawEvents_of mixed_feed).
Proof.
  apply (loaded_events_are_well_formed (Body mixed_feed)
           (derived 0 (rawEvents_of mixed_feed)) "cutting-table.mp4").
  vm_compute. reflexivity.
Defined.

(** X16. A run of [load] whose effect has been cancelled stores nothing,
    whatever the response.  A run that has not been cancelled stores exactly
    one value, and that value is [null] in exactly these cases: the request
    fails or is not ok, the conversion of some record of the feed throws, or
    no record of the feed gives an event.  So one record whose conversion
    throws discards the whole feed, and whenever [null] is what the state
    holds the base events of a completed analysis are the synthetic ones. *)
Theorem load_stores_nothing_when (json : JS.value) (videoName : string) :
  (forall res, load_effect true res = None)
  /\ (forall res, exists v, load_effect false res = Some v)
  /\ load_effect false Rejected = Some None
  /\ load_effect false NotOk = Some None
  /\ (load_effect false (Body json) = Some None
      <-> (exists i e, rawEvents_of json !! i = Some e /\ validate e i = None)
          \/ (forall i e ev, rawEvents_of json !! i = Some e ->
                             validate e i <> Some (Some ev)))
  /\ (forall cancelled res v,
        load_effect cancelled res = Some v -> cancelled = false /\ v = load res)
  /\ baseEvents true None videoName = syntheticEvents (seed_string videoName)
  /\ load_effect false (Body throwing_feed) = Some None.
Proof.
  split; [reflexivity|]. split; [intros res; eexists; reflexivity|].
  split; [reflexivity|]. split; [reflexivity|]. split; [|split; [|split]].
  - transitivity (load (Body json) = None).
    { unfold load_effect. split; [intros [= H]; exact H | intros H; f_equal; exact H]. }
    unfold load.
    destruct (validate_from 0 (rawEvents_of json)) as [evs|] eqn:E.
    + pose proof (validate_from_derived _ _ _ E) as Hd.
      assert (forall i e, rawEvents_of json !! i = Some e -> validate e i <> None) as Hno.
      { intros i e Hi Hv.
        assert (validate_from 0 (rawEvents_of json) = None) as C
          by (apply validate_from_None; exists i, e; auto).
        congruence. }
      destruct evs as [|ev evs].
      * split; [|reflexivity]. intros _. right. intros i e ev Hi Hv.
        assert (In ev (derived 0 (rawEvents_of json))) as Hin
          by (apply In_derived; exists i, e; auto).
        rewrite <- Hd in Hin. destruct Hin.
      * split; [discriminate|]. intros [(i & e & Hi & Hv)|Hall].
        -- destruct (Hno i e Hi Hv).
        -- exfalso.
           assert (In ev (derived 0 (rawEvents_of json))) as Hin
             by (rewrite <- Hd; left; reflexivity).
           apply In_derived in Hin as (i & e & Hi & Hv). apply (Hall i e ev Hi Hv).
    + split; [|reflexivity]. intros _. left.
      apply validate_from_None in E as (i & e & Hi & Hv). exists i, e. auto.
  - intros [|] res v; [discriminate|]. intros [= <-]. split; reflexivity.
  - reflexivity.
  - vm_compute. reflexivity.
Qed.

(** ** Before and after the analysis has completed *)

(** X17. Until the analysis has completed nothing reaches the dashboard, whatever
    was loaded and whatever the filters: no base event, no event after the
    time filter, 60 empty buckets, totals and throughput 0, the zero window
    as the peak, and an export that holds the header line alone. *)
Theorem nothing_is_shown_before_completion
    (Date_parse : string -> number) (eventsFromFile : option (list DetectionEvent))
    (videoName : string) (dateTimeFrom dateTimeTo : option string)
    (timeRange : TimeRangeKey) (eventConfidenceMin : number)
    (eventSizeFilter : option PizzaSize) :
  let base := baseEvents false eventsFromFile videoName in
  let events := timeFilteredEvents Date_parse false dateTimeFrom dateTimeTo
                  timeRange base in
  let series := minuteData events in
  base = [] /\ events = []
  /\ series = map empty_point (seq 0 60)
  /\ totals series = {| t_total := 0; t_Small := 0; t_Medium := 0;
                        t_Large := 0; t_XL := 0 |}
  /\ pizzasPerMin (length series) (t_total (totals series)) = zero
  /\ peak10Min series = {| count := 0; start := "00:00"; end_ := "00:09" |}
  /\ downloadCsv (filteredEvents eventConfidenceMin eventSizeFilter events)
     = "time,size,confidence,source,id".
Proof.
  repeat split; vm_compute; reflexivity.
Qed.

(** X18. Once the analysis has completed there is always something to show: the
    base events are the loaded ones or else the 220 synthetic ones, never an
    empty list, and without a date bound and with the selector of all events
    they all pass the time filter. *)
Theorem something_is_shown_after_completion
    (Date_parse : string -> number) (res : response) (videoName : string) :
  let base := baseEvents true (load res) videoName in
  base <> []
  /\ (load res = None -> length base = 220%nat)
  /\ timeFilteredEvents Date_parse true None None range_all base = base
  /\ timeFilteredEvents Date_parse true (bound_prop "") (bound_prop "") range_all base
     = base.
Proof.
  intros base.
  assert (base <> []) as Hne.
  { unfold base. destruct (load res) as [evs|] eqn:E.
    - destruct (loaded_nonempty _ _ E) as [ev [l ->]]. discriminate.
    - apply syntheticEvents_nonempty. }
  split; [exact Hne|]. split.
  - intros E. unfold base. rewrite E.
    change (baseEvents true None videoName)
      with (syntheticEvents (seed_string videoName)).
    rewrite syntheticEvents_closed, length_map, length_seq. reflexivity.
  - clearbody base. split; apply all_mode_identity; reflexivity.
Qed.

(** ** The displayed list *)

Lemma filter_filter {A} (f g : A -> bool) (l : list A) :
  List.filter f (List.filter g l) = List.filter (fun x => g x && f x) l.
Proof.
  induction l as [|x l IH]; [reflexivity|]. simpl.
  destruct (g x); simpl; [destruct (f x)|]; rewrite IH; reflexivity.
Qed.

Lemma le_not_nan a b : le a b = true -> isNaN a = false /\ isNaN b = false.
Proof.
  unfold le. destruct a as [[]|[]| |[]], b as [[]|[]| |[]]; simpl;
    try discriminate; auto.
Qed.

Lemma ge_weaken c lo hi : le lo hi = true -> ge c hi = true -> ge c lo = true.
Proof.
  intros Hle Hge. rewrite <- le_ge in *.
  destruct (le_not_nan _ _ Hle) as (Hlo & Hhi).
  destruct (le_not_nan _ _ Hge) as (_ & Hc).
  apply (le_trans lo hi c); assumption.
Qed.

Lemma sizes_partition (l : list DetectionEvent) :
  length l
  = (length (List.filter (fun e => size_eqb (e_size e) Small) l)
     + length (List.filter (fun e => size_eqb (e_size e) Medium) l)
     + length (List.filter (fun e => size_eqb (e_size e) Large) l)
     + length (List.filter (fun e => size_eqb (e_size e) XL) l))%nat.
Proof.
  induction l as [|e l IH]; [reflexivity|].
  simpl. destruct (e_size e); simpl; lia.
Qed.

(** X19. The displayed list keeps the order of the events and only narrows when
    the threshold is raised: filtering with a higher threshold what a lower
    one has kept gives what the higher threshold keeps of the whole list, so
    applying the same filter twice changes nothing.  The events kept for all
    sizes are those kept for the four sizes taken one by one, and a
    threshold that is NaN keeps no event. *)
Theorem filteredEvents_narrows_with_threshold
    (lo hi : number) (eventSizeFilter : option PizzaSize)
    (events : list DetectionEvent) :
  le lo hi = true ->
  filteredEvents hi eventSizeFilter (filteredEvents lo eventSizeFilter events)
  = filteredEvents hi eventSizeFilter events
  /\ filteredEvents lo eventSizeFilter (filteredEvents lo eventSizeFilter events)
     = filteredEvents lo eventSizeFilter events
  /\ (forall e, In e (filteredEvents hi eventSizeFilter events) ->
                In e (filteredEvents lo eventSizeFilter events))
  /\ (length (filteredEvents hi eventSizeFilter events)
      <= length (filteredEvents lo eventSizeFilter events))%nat
  /\ length (filteredEvents lo None events)
     = (length (filteredEvents lo (Some Small) events)
        + length (filteredEvents lo (Some Medium) events)
        + length (filteredEvents lo (Some Large) events)
        + length (filteredEvents lo (Some XL) events))%nat
  /\ filteredEvents NaN eventSizeFilter events = [].
Proof.
  intros Hle.
  assert (forall a b, le a b = true ->
            filteredEvents b eventSizeFilter (filteredEvents a eventSizeFilter events)
            = filteredEvents b eventSizeFilter events) as Hnarrow.
  { intros a b Hab. unfold filteredEvents. rewrite !filter_filter.
    apply List.filter_ext. intros e.
    destruct (ge (e_confidence e) b) eqn:Hb.
    - rewrite (ge_weaken _ _ _ Hab Hb). simpl.
      destruct eventSizeFilter as [s|]; [destruct (size_eqb (e_size e) s)|]; reflexivity.
    - simpl. rewrite !andb_false_r. reflexivity. }
  split; [apply Hnarrow, Hle|].
  split; [apply Hnarrow, le_refl, (le_not_nan _ _ Hle)|].
  assert (forall e, In e (filteredEvents hi eventSizeFilter events) ->
                    In e (filteredEvents lo eventSizeFilter events)) as Hin.
  { intros e. rewrite <- (Hnarrow lo hi Hle). apply filteredEvents_incl. }
  split; [exact Hin|]. split.
  - rewrite <- (Hnarrow lo hi Hle). unfold filteredEvents at 1.
    etransitivity; [apply List.filter_length_le|]. apply List.filter_length_le.
  - split.
    + unfold filteredEvents. cbn beta iota.
      set (L := List.filter (fun e => ge (e_confidence e) lo) events).
      assert (List.filter (fun _ : DetectionEvent => true) L = L) as ->
        by (clear; induction L as [|e L IH]; simpl; congruence).
      apply sizes_partition.
    + unfold filteredEvents.
      replace (List.filter (fun e => ge (e_confidence e) NaN) events) with (@nil DetectionEvent);
        [reflexivity|].
      clear. induction events as [|e l IH]; [reflexivity|]. simpl.
      replace (ge (e_confidence e) NaN) with false; [exact IH|].
      unfold ge. destruct (e_confidence e) as [[]|[]| |[]]; reflexivity.
Qed.

Lemma filteredEvents_narrows_with_threshold_witness :
  filteredEvents (of_decimal false 9 (-1)) None
    (filteredEvents (of_decimal false 7 (-1)) None three_events)
  = filteredEvents (of_decimal false 9 (-1)) None three_events.
Proof.
  destruct (filteredEvents_narrows_with_threshold
              (of_decimal false 7 (-1)) (of_decimal false 9 (-1)) None three_events)
    as (H & _); [vm_compute; reflexivity|].
  exact H.
Defined.

(** ** The address of the feed *)

Lemma find_some_key branches k b :
  List.find (fun b => String.eqb (key b) k) branches = Some b ->
  In b branches /\ key b = k.
Proof.
  intros H. apply List.find_some in H as [Hin Hk].
  split; [exact Hin | apply String.eqb_eq, Hk].
Qed.

Lemma of_chars_app l1 l2 :
  Str.of_chars (l1 ++ l2)%list = Str.of_chars l1 ++ Str.of_chars l2.
Proof. induction l1 as [|c l1 IH]; simpl; [reflexivity | f_equal; exact IH]. Qed.

Lemma ends_with_slash_inv a :
  ends_with_slash a = true -> a = slice_0_m1 a ++ "/".
Proof.
  unfold ends_with_slash, slice_0_m1. intros H.
  destruct (rev (Str.chars a)) as [|c t] eqn:E; [discriminate|].
  assert (c = "/"%char) as ->.
  { destruct c as [[] [] [] [] [] [] [] []]; try discriminate; reflexivity. }
  assert (Str.chars a = (rev t ++ ["/"%char])%list) as Ha
    by (rewrite <- (rev_involutive (Str.chars a)), E; reflexivity).
  rewrite Ha, removelast_last.
  change "/" with (Str.of_chars ["/"%char]). rewrite <- of_chars_app, <- Ha.
  symmetry. apply of_chars_chars.
Qed.

Lemma find_first_key (before : list BranchOption) b after k :
  key b = k -> (forall b', In b' before -> key b' <> k) ->
  List.find (fun b => String.eqb (key b) k) (before ++ b :: after)%list = Some b.
Proof.
  intros Hk Hno. induction before as [|x before IH]; simpl.
  - rewrite Hk, String.eqb_refl. reflexivity.
  - destruct (String.eqb_spec (key x) k) as [E|E].
    + destruct (Hno x (or_introl eq_refl) E).
    + apply IH. intros b' Hb'. apply Hno. right. exact Hb'.
Qed.

Lemma find_listed_key (branches : list BranchOption) b k :
  In b branches -> key b = k ->
  exists before b' after,
    branches = (before ++ b' :: after)%list /\ key b' = k
    /\ forall x, In x before -> key x <> k.
Proof.
  induction branches as [|x branches IH]; intros Hin Hk; [destruct Hin|].
  destruct (String.eqb_spec (key x) k) as [E|E].
  - exists [], x, branches. split; [reflexivity|]. split; [exact E|]. intros ? [].
  - destruct Hin as [->|Hin]; [contradiction|].
    destruct (IH Hin Hk) as (before & b' & after & -> & Hb' & Hno).
    exists (x :: before), b', after. split; [reflexivity|]. split; [exact Hb'|].
    intros y [<-|Hy]; [exact E | apply Hno, Hy].
Qed.

(** X20. The feed path of the page is the default feed when the branch
    selector is on all branches, when the selected key is empty and when no
    listed branch has the selected key.  Otherwise, that is when the
    selector is on the branch and some listed branch has the selected,
    non-empty key, it is the feed named after the location of the first
    listed branch with that key.  In every case the path starts with a
    slash, so the address requested is the base path, less one trailing
    slash if it has one, followed by the path; this holds for every base
    path. *)
Theorem events_feed_address (basePath : string) (branchSelect : BranchSelectValue)
    (branches : list BranchOption) (selectedBranchKey : string) :
  let path := eventsJsonPath branchSelect (selectedBranch branches selectedBranchKey) in
  (ends_with_slash basePath = false ->
   demoEventsJsonUrl basePath path = basePath ++ path)
  /\ (forall base, basePath = base ++ "/" ->
        demoEventsJsonUrl basePath path = base ++ path)
  /\ (exists base, (basePath = base \/ basePath = base ++ "/")
                   /\ demoEventsJsonUrl basePath path = base ++ path)
  /\ (branchSelect = select_all \/ selectedBranchKey = ""
      \/ (forall b, In b branches -> key b <> selectedBranchKey) ->
      path = default_feed)
  /\ (forall before b after,
        branchSelect = select_khayaban -> selectedBranchKey <> "" ->
        branches = (before ++ b :: after)%list ->
        key b = selectedBranchKey ->
        (forall b', In b' before -> key b' <> selectedBranchKey) ->
        path = "/demo/pizza-events-" ++ NumStr.Number_toString (locationId b)
               ++ ".json")
  /\ (forall b,
        branchSelect = select_khayaban -> selectedBranchKey <> "" ->
        In b branches -> key b = selectedBranchKey ->
        exists before b' after,
          branches = (before ++ b' :: after)%list
          /\ key b' = selectedBranchKey
          /\ (forall x, In x before -> key x <> selectedBranchKey)
          /\ path = "/demo/pizza-events-" ++ NumStr.Number_toString (locationId b')
                    ++ ".json").
Proof.
  intros path.
  assert (starts_with_slash path = true) as Hp.
  { unfold path, eventsJsonPath.
    destruct branchSelect; [reflexivity|].
    destruct (selectedBranch branches selectedBranchKey); reflexivity. }
  assert (ends_with_slash basePath = false ->
          demoEventsJsonUrl basePath path = basePath ++ path) as H1.
  { intros Hbase. unfold demoEventsJsonUrl, joinPath. rewrite Hbase, Hp.
    destruct basePath; reflexivity. }
  assert (forall base, basePath = base ++ "/" ->
            demoEventsJsonUrl basePath path = base ++ path) as H2.
  { intros base ->. unfold demoEventsJsonUrl, joinPath.
    rewrite ends_with_slash_snoc, slice_0_m1_snoc, Hp. destruct base; reflexivity. }
  assert (forall before b after,
            selectedBranchKey <> "" ->
            branches = (before ++ b :: after)%list ->
            key b = selectedBranchKey ->
            (forall b', In b' before -> key b' <> selectedBranchKey) ->
            selectedBranch branches selectedBranchKey = Some b) as Hsel.
  { intros before b after Hk -> Hb Hno. unfold selectedBranch.
    destruct selectedBranchKey as [|c k]; [congruence|].
    apply find_first_key; assumption. }
  split; [exact H1|]. split; [exact H2|]. split.
  { destruct (ends_with_slash basePath) eqn:E.
    - exists (slice_0_m1 basePath).
      pose proof (ends_with_slash_inv _ E) as Hb.
      split; [right; exact Hb | apply H2, Hb].
    - exists basePath. split; [left; reflexivity | apply H1; reflexivity]. }
  split.
  { intros [->|[->|Hno]]; [reflexivity | destruct branchSelect; reflexivity|].
    unfold path, eventsJsonPath. destruct branchSelect; [reflexivity|].
    destruct (selectedBranch branches selectedBranchKey) as [b|] eqn:E; [|reflexivity].
    unfold selectedBranch in E. destruct selectedBranchKey; [discriminate|].
    apply find_some_key in E as [Hin Hk]. destruct (Hno b Hin Hk). }
  split.
  { intros before b after -> Hk Hbr Hb Hno. unfold path.
    rewrite (Hsel before b after Hk Hbr Hb Hno). reflexivity. }
  intros b -> Hk Hin Hb.
  destruct (find_listed_key branches b selectedBranchKey Hin Hb)
    as (before & b' & after & Hbr & Hb' & Hno).
  exists before, b', after. split; [exact Hbr|]. split; [exact Hb'|].
  split; [exact Hno|]. unfold path.
  rewrite (Hsel before b' after Hk Hbr Hb' Hno). reflexivity.
Qed.

Lemma events_feed_address_witness :
  demoEventsJsonUrl "/admin" (eventsJsonPath select_khayaban (selectedBranch [branch_7] "7"))
  = "/admin/demo/pizza-events-7.json"
  /\ demoEventsJsonUrl "/admin//"
       (eventsJsonPath select_khayaban (selectedBranch [branch_7] "7"))
     = "/admin//demo/pizza-events-7.json".
Proof.
  destruct (events_feed_address "/admin" select_khayaban [branch_7] "7")
    as (H & _ & _ & _ & Hb & _).
  destruct (events_feed_address "/admin//" select_khayaban [branch_7] "7")
    as (_ & H' & _).
  cbv zeta in H, H', Hb.
  rewrite (H eq_refl), (H' "/admin/" eq_refl).
  rewrite (Hb [] branch_7 [] eq_refl); [|discriminate|reflexivity|reflexivity|intros ? []].
  split; vm_compute; reflexivity.
Defined.

(** ** Rounding: the size of the mantissa and of the exponent *)










(** ** The numbers drawn and what the generator makes of them *)















(** ** Numbers that [String] and [Number] return unchanged *)







